(** * libpqmxx: binary result decoding and row streaming

    A shallow embedding of [src/postgres-result.cpp]: the wire readers
    [read<T>] over a cursor, the column accessors [Row::get<T>] and
    [Row::asArray<T>], and the fetch/drain state machine of [Result]
    ([first], [next], [clear], [begin], [end], [iterator::operator++]).

    Conventions.
    - A [char *] pointing into a value buffer is the list of bytes at and
      after the pointer; advancing the pointer drops bytes from the front.
      Reading past the end of the buffer is undefined behaviour.
    - C++ integers are [Z] in the range of their type; signed arithmetic
      that leaves the range wraps around, as it does on the two's-complement
      machines the library runs on.
    - A call either returns, throws a C++ exception, stops on a failed
      [assert], or has undefined behaviour: see [outcome]. *)

From Stdlib Require Import ZArith List Ascii String Bool Lia DecimalString DecimalNat.
From coqutil Require Import Byte Word.LittleEndianList.
Import ListNotations.

Local Open Scope Z_scope.

(** ** Build configuration *)

(** [ndebug] tells whether the translation unit is compiled with [NDEBUG]
    ([assert] and [assert_oid] then expand to nothing); [big_endian_host]
    is the byte order of the machine running the client. *)
Record config : Type := Config {
  ndebug : bool;
  big_endian_host : bool
}.

(** The build obtained without any special flag, on a little-endian host. *)
Definition default_build : config :=
  {| ndebug := false; big_endian_host := false |}.

(** ** Outcomes of a call *)

Inductive exception : Type :=
| ExecutionException (what : string)
| length_error.

(** [Abort cerr expr]: the assertion [assert(expr)] failed after [cerr] had
    been written to the standard error stream. *)
Inductive outcome (A : Type) : Type :=
| Ok (a : A)
| Throw (e : exception)
| Abort (cerr : string) (expr : string)
| Undefined.

Arguments Ok {A} a.
Arguments Throw {A} e.
Arguments Abort {A} cerr expr.
Arguments Undefined {A}.

Definition bind {A B : Type} (m : outcome A) (k : A -> outcome B) : outcome B :=
  match m with
  | Ok a => k a
  | Throw e => Throw e
  | Abort c x => Abort c x
  | Undefined => Undefined
  end.

Notation "x <- m ;; k" := (bind m (fun x => k))
  (at level 61, m at next level, right associativity).
Notation "' p <- m ;; k" := (bind m (fun p => k))
  (at level 61, p pattern, m at next level, right associativity).

(** [assert(cond)], with [expr] the text of the asserted expression. *)
Definition assert_ (cfg : config) (cond : bool) (expr : string) : outcome unit :=
  if ndebug cfg then Ok tt
  else if cond then Ok tt else Abort "" expr.

(** ** Fixed-width integers *)

Definition to_signed (bits : Z) (u : Z) : Z :=
  if u <? 2 ^ (bits - 1) then u else u - 2 ^ bits.

Definition to_unsigned (bits : Z) (v : Z) : Z := v mod 2 ^ bits.

Definition in_range (bits : Z) (v : Z) : Prop :=
  - 2 ^ (bits - 1) <= v < 2 ^ (bits - 1).

(** Signed arithmetic of [bits] bits, wrapping around as the two's-complement
    machine does. *)
Definition wrap (bits : Z) (v : Z) : Z := to_signed bits (to_unsigned bits v).

(** ** The cursor [char **buf] *)

Definition cursor : Type := list byte.

(** The load through [reinterpret_cast] of an integer of [n] bytes at the
    cursor: the object representation there, read in the byte order of the
    host. *)
Definition load (cfg : config) (n : nat) (buf : cursor) : outcome Z :=
  if (List.length buf <? n)%nat then Undefined
  else
    let bytes := firstn n buf in
    Ok (le_combine (if big_endian_host cfg then rev bytes else bytes)).

(** [*buf += n]. *)
Definition advance (n : nat) (buf : cursor) : cursor := skipn n buf.

(** Swapping the [n] bytes of an unsigned integer. *)
Definition bswap (n : nat) (x : Z) : Z := le_combine (rev (le_split n x)).

(** [be16toh], [be32toh], [be64toh]: big-endian to host order, which is the
    identity on a big-endian host and a byte swap on a little-endian one. *)
Definition betoh (cfg : config) (n : nat) (x : Z) : Z :=
  if big_endian_host cfg then x else bswap n x.

(** ** [read<T>(char **buf)] *)

(** [read<bool>]: the byte at the cursor taken as a [bool] object; only the
    representations 0 and 1 are values of the type. *)
Definition read_bool (cfg : config) (buf : cursor) : outcome (bool * cursor) :=
  match buf with
  | [] => Undefined
  | b :: _ =>
      if byte.unsigned b =? 0 then Ok (false, advance 1 buf)
      else if byte.unsigned b =? 1 then Ok (true, advance 1 buf)
      else Undefined
  end.

(** The shared shape of [read<int16_t>], [read<int32_t>], [read<int64_t>]:
    load, convert with [beNtoh], advance, return as the signed type. *)
Definition read_int (cfg : config) (n : nat) (buf : cursor) : outcome (Z * cursor) :=
  x <- load cfg n buf ;;
  let v := betoh cfg n x in
  Ok (to_signed (Z.of_nat n * 8) v, advance n buf).

Definition read_int16_t (cfg : config) := read_int cfg 2.
Definition read_int32_t (cfg : config) := read_int cfg 4.
Definition read_int64_t (cfg : config) := read_int cfg 8.

(** A [float] or [double] is represented by its IEEE-754 bit pattern, the
    unsigned integer of the same width. *)
Record float : Type := Float { float_bits : Z }.
Record double : Type := Double { double_bits : Z }.

(** [read<float>] and [read<double>]: the integer read, its storage then
    reinterpreted as the floating type. *)
Definition read_float (cfg : config) (buf : cursor) : outcome (float * cursor) :=
  ' (v, buf') <- read_int32_t cfg buf ;;
  Ok (Float (to_unsigned 32 v), buf').

Definition read_double (cfg : config) (buf : cursor) : outcome (double * cursor) :=
  ' (v, buf') <- read_int64_t cfg buf ;;
  Ok (Double (to_unsigned 64 v), buf').

(** ** Temporal types *)

(** Modelled from the spec: the temporal records are declared in a header
    that is not part of the sources at hand.  They follow the data model
    (date: seconds since the Unix epoch; time: microseconds since midnight;
    time with zone: time and zone offset in seconds; timestamps: microseconds
    since the Unix epoch; interval: microseconds, days, months), with fields
    in the order the readers fill them: a date in 32 bits, the microsecond
    fields in 64 bits, zone offset, days and months in 32 bits. *)
Record date_t : Type := Date { epoch_date : Z }.
Record timestamp_t : Type := Timestamp { epoch_time : Z }.
Record timestamptz_t : Type := Timestamptz { epoch_time_tz : Z }.
Record timetz_t : Type := Timetz { timetz_time : Z; timetz_offset : Z }.
Record time_t : Type := Time { time_of_day : Z }.
Record interval_t : Type :=
  Interval { interval_time : Z; interval_days : Z; interval_months : Z }.

(** Modelled from the spec: the days from 1970-01-01 to 2000-01-01, a
    constant of the header that declares the temporal records. *)
Definition DAYS_UNIX_TO_J2000_EPOCH : Z := 10957.

(** Modelled from the spec: the microseconds from 1970-01-01 to 2000-01-01,
    a constant of the same header. *)
Definition MICROSEC_UNIX_TO_J2000_EPOCH : Z := 946684800 * 1000000.

(** [read<date_t>]: the sum and the product are [int32_t] arithmetic. *)
Definition read_date_t (cfg : config) (buf : cursor) : outcome (date_t * cursor) :=
  ' (d, buf') <- read_int32_t cfg buf ;;
  Ok (Date (wrap 32 (wrap 32 (d + DAYS_UNIX_TO_J2000_EPOCH) * 86400)), buf').

(** [read<timestamp_t>] and [read<timestamptz_t>]: [int64_t] arithmetic. *)
Definition read_timestamp_t (cfg : config) (buf : cursor)
  : outcome (timestamp_t * cursor) :=
  ' (t, buf') <- read_int64_t cfg buf ;;
  Ok (Timestamp (wrap 64 (t + MICROSEC_UNIX_TO_J2000_EPOCH)), buf').

Definition read_timestamptz_t (cfg : config) (buf : cursor)
  : outcome (timestamptz_t * cursor) :=
  ' (t, buf') <- read_int64_t cfg buf ;;
  Ok (Timestamptz (wrap 64 (t + MICROSEC_UNIX_TO_J2000_EPOCH)), buf').

(** [read<timetz_t>]: the initializers of a braced list run left to right. *)
Definition read_timetz_t (cfg : config) (buf : cursor) : outcome (timetz_t * cursor) :=
  ' (t, buf1) <- read_int64_t cfg buf ;;
  ' (z, buf2) <- read_int32_t cfg buf1 ;;
  Ok (Timetz t z, buf2).

Definition read_time_t (cfg : config) (buf : cursor) : outcome (time_t * cursor) :=
  ' (t, buf') <- read_int64_t cfg buf ;;
  Ok (Time t, buf').

Definition read_interval_t (cfg : config) (buf : cursor)
  : outcome (interval_t * cursor) :=
  ' (t, buf1) <- read_int64_t cfg buf ;;
  ' (d, buf2) <- read_int32_t cfg buf1 ;;
  ' (m, buf3) <- read_int32_t cfg buf2 ;;
  Ok (Interval t d m, buf3).

(** ** The specializations of [read<T>] as one family *)

Inductive ctype : Type :=
| T_bool | T_int16_t | T_int32_t | T_int64_t | T_float | T_double
| T_date_t | T_timestamp_t | T_timestamptz_t | T_timetz_t | T_time_t
| T_interval_t.

Definition cpp (t : ctype) : Type :=
  match t with
  | T_bool => bool
  | T_int16_t | T_int32_t | T_int64_t => Z
  | T_float => float
  | T_double => double
  | T_date_t => date_t
  | T_timestamp_t => timestamp_t
  | T_timestamptz_t => timestamptz_t
  | T_timetz_t => timetz_t
  | T_time_t => time_t
  | T_interval_t => interval_t
  end.

Definition read (cfg : config) (t : ctype) : cursor -> outcome (cpp t * cursor) :=
  match t with
  | T_bool => read_bool cfg
  | T_int16_t => read_int16_t cfg
  | T_int32_t => read_int32_t cfg
  | T_int64_t => read_int64_t cfg
  | T_float => read_float cfg
  | T_double => read_double cfg
  | T_date_t => read_date_t cfg
  | T_timestamp_t => read_timestamp_t cfg
  | T_timestamptz_t => read_timestamptz_t cfg
  | T_timetz_t => read_timetz_t cfg
  | T_time_t => read_time_t cfg
  | T_interval_t => read_interval_t cfg
  end.

(** The fixed-width scalar types, and [sizeof]. *)
Definition scalar (t : ctype) : bool :=
  match t with
  | T_bool | T_int16_t | T_int32_t | T_int64_t | T_float | T_double => true
  | _ => false
  end.

Definition sizeof (t : ctype) : nat :=
  match t with
  | T_bool => 1
  | T_int16_t => 2
  | T_int32_t | T_float | T_date_t => 4
  | T_int64_t | T_double | T_timestamp_t | T_timestamptz_t | T_time_t => 8
  | T_timetz_t => 12
  | T_interval_t => 16
  end.

(** ** The wire format, as the server writes it

    The other direction of the protocol: [n] bytes, most significant first,
    of the two's-complement representation. *)
Definition be_bytes (n : nat) (v : Z) : list byte := rev (le_split n v).

Definition encode_bool (b : bool) : list byte := [byte.of_Z (if b then 1 else 0)].
Definition encode_int16 (v : Z) : list byte := be_bytes 2 v.
Definition encode_int32 (v : Z) : list byte := be_bytes 4 v.
Definition encode_int64 (v : Z) : list byte := be_bytes 8 v.
Definition encode_float (f : float) : list byte := be_bytes 4 (float_bits f).
Definition encode_double (d : double) : list byte := be_bytes 8 (double_bits d).

(** The values of each scalar type. *)
Definition value_of (t : ctype) : cpp t -> Prop :=
  match t return cpp t -> Prop with
  | T_bool => fun _ => True
  | T_int16_t => in_range 16
  | T_int32_t => in_range 32
  | T_int64_t => in_range 64
  | T_float => fun f => 0 <= float_bits f < 2 ^ 32
  | T_double => fun d => 0 <= double_bits d < 2 ^ 64
  | _ => fun _ => True
  end.

(** The wire image of a scalar; the temporal types have no encoder here. *)
Definition encode (t : ctype) : cpp t -> list byte :=
  match t return cpp t -> list byte with
  | T_bool => encode_bool
  | T_int16_t => encode_int16
  | T_int32_t => encode_int32
  | T_int64_t => encode_int64
  | T_float => encode_float
  | T_double => encode_double
  | _ => fun _ => []
  end.

(** ** The libpq result object *)

Inductive ExecStatusType : Type :=
| PGRES_EMPTY_QUERY | PGRES_COMMAND_OK | PGRES_TUPLES_OK | PGRES_COPY_OUT
| PGRES_COPY_IN | PGRES_BAD_RESPONSE | PGRES_NONFATAL_ERROR
| PGRES_FATAL_ERROR | PGRES_COPY_BOTH | PGRES_SINGLE_TUPLE.

Definition status_eqb (a b : ExecStatusType) : bool :=
  match a, b with
  | PGRES_EMPTY_QUERY, PGRES_EMPTY_QUERY
  | PGRES_COMMAND_OK, PGRES_COMMAND_OK
  | PGRES_TUPLES_OK, PGRES_TUPLES_OK
  | PGRES_COPY_OUT, PGRES_COPY_OUT
  | PGRES_COPY_IN, PGRES_COPY_IN
  | PGRES_BAD_RESPONSE, PGRES_BAD_RESPONSE
  | PGRES_NONFATAL_ERROR, PGRES_NONFATAL_ERROR
  | PGRES_FATAL_ERROR, PGRES_FATAL_ERROR
  | PGRES_COPY_BOTH, PGRES_COPY_BOTH
  | PGRES_SINGLE_TUPLE, PGRES_SINGLE_TUPLE => true
  | _, _ => false
  end.

(** One column of tuple 0: its name, the type tag the server reports for it,
    and its value, either SQL NULL or a buffer of bytes. *)
Record Column : Type := {
  fname : string;
  ftype : Z;
  isnull : bool;
  value : list byte
}.

(** A protocol message as libpq hands it over: status, number of tuples,
    the columns of tuple 0, and the diagnostic text of an error message. *)
Record PGresult : Type := {
  resultStatus : ExecStatusType;
  ntuples : Z;
  columns : list Column;
  errMsg : string
}.

(** The column of that number, when the result is there and has it. *)
Definition field (res : option PGresult) (column : Z) : option Column :=
  match res with
  | None => None
  | Some r => if column <? 0 then None else nth_error (columns r) (Z.to_nat column)
  end.

(** The same for a field of tuple 0, which the result must hold. *)
Definition tuple_field (res : option PGresult) (column : Z) : option Column :=
  match res with
  | None => None
  | Some r => if 0 <? ntuples r then field res column else None
  end.

(** libpq answers for a missing result, tuple or column: the tag
    [InvalidOid], a null value, length 0 and, below, a null pointer. *)
Definition PQftype (res : option PGresult) (column : Z) : Z :=
  match field res column with Some c => ftype c | None => 0 end.

Definition PQgetisnull (res : option PGresult) (column : Z) : bool :=
  match tuple_field res column with Some c => isnull c | None => true end.

Definition PQgetlength (res : option PGresult) (column : Z) : Z :=
  match tuple_field res column with
  | Some c => if isnull c then 0 else Z.of_nat (List.length (value c))
  | None => 0
  end.

(** The buffer libpq shows for a field ends with a zero byte that its length
    does not count; for a null field it is the empty string, that byte
    alone. *)
Definition PQgetvalue (res : option PGresult) (column : Z) : option cursor :=
  match tuple_field res column with
  | Some c => Some ((if isnull c then [] else value c) ++ [Byte.x00])
  | None => None
  end.

Definition PQresultStatus (res : option PGresult) : ExecStatusType :=
  match res with Some r => resultStatus r | None => PGRES_FATAL_ERROR end.

Definition PQntuples (res : option PGresult) : Z :=
  match res with Some r => ntuples r | None => 0 end.

(** ** Type tags *)

(** Modelled from the spec: the wire type tags are constants of the protocol
    (the header that names them is not among the sources); these are the
    values the server catalogue assigns. *)
Definition BOOLOID : Z := 16.
Definition BYTEAOID : Z := 17.
Definition CHAROID : Z := 18.
Definition NAMEOID : Z := 19.
Definition INT8OID : Z := 20.
Definition INT2OID : Z := 21.
Definition INT4OID : Z := 23.
Definition TEXTOID : Z := 25.
Definition FLOAT4OID : Z := 700.
Definition FLOAT8OID : Z := 701.
Definition BPCHAROID : Z := 1042.
Definition VARCHAROID : Z := 1043.
Definition DATEOID : Z := 1082.
Definition TIMEOID : Z := 1083.
Definition TIMESTAMPOID : Z := 1114.
Definition TIMESTAMPTZOID : Z := 1184.
Definition INTERVALOID : Z := 1186.
Definition TIMETZOID : Z := 1266.

(** The [switch] of [assert_oid]: the accessor named for a tag, or [None] in
    the [default] case. *)
Definition expected_name (expected : Z) : option string :=
  if expected =? BOOLOID then Some "std::vector<uint_8>"%string
  else if expected =? BYTEAOID then Some "char"%string
  else if expected =? CHAROID then Some "std::string"%string
  else if expected =? NAMEOID then Some "std::string"%string
  else if expected =? INT8OID then Some "int64_t"%string
  else if expected =? INT2OID then Some "int16_t"%string
  else if expected =? INT4OID then Some "int32_t"%string
  else if expected =? TEXTOID then Some "std::string"%string
  else if expected =? FLOAT4OID then Some "float"%string
  else if expected =? FLOAT8OID then Some "double"%string
  else if expected =? BPCHAROID then Some "std::string"%string
  else if expected =? VARCHAROID then Some "std::string"%string
  else if expected =? DATEOID then Some "db::postgres::date_t"%string
  else if expected =? TIMEOID then Some "db::postgres::time_t"%string
  else if expected =? TIMESTAMPOID then Some "db::postgres::timestamp_t"%string
  else if expected =? TIMESTAMPTZOID then Some "db::postgres::timestamptz_t"%string
  else if expected =? INTERVALOID then Some "db::postgres::interval_t"%string
  else if expected =? TIMETZOID then Some "db::postgres::timetz_t"%string
  else None.

Definition endl : string := String (Ascii.ascii_of_nat 10) EmptyString.

(** [assert_oid(expected, actual)]: nothing under [NDEBUG]; otherwise, when
    the tags differ, a line on the error stream (unless the [default] case
    has already stopped the program) and [assert(false)]. *)
Definition assert_oid (cfg : config) (expected actual : Z) : outcome unit :=
  if ndebug cfg then Ok tt
  else if expected =? actual then Ok tt
  else
    match expected_name expected with
    | None => Abort "" "false"
    | Some name =>
        Abort ("Unexpected C++ type. Please use get<" ++ name
               ++ ">(int column)" ++ endl) "false"
    end.

(** ** Reading a value from a [PGresult] *)

(** A pointer to a result is either null or attached to one. *)
Definition attached (pgresult : option PGresult) : bool :=
  match pgresult with Some _ => true | None => false end.

(** [read<T>(pgresult, column)]. *)
Definition read_column (cfg : config) (t : ctype) (pgresult : option PGresult)
    (column : Z) : outcome (cpp t) :=
  match PQgetvalue pgresult column with
  | None => Undefined
  | Some buf => ' (v, _) <- read cfg t buf ;; Ok v
  end.

(** [read<T>(pgresult, oid, column, defVal)]. *)
Definition read_checked (cfg : config) (t : ctype) (pgresult : option PGresult)
    (oid : Z) (column : Z) (defVal : cpp t) : outcome (cpp t) :=
  _ <- assert_ cfg (attached pgresult) "pgresult != nullptr" ;;
  _ <- assert_oid cfg (PQftype pgresult column) oid ;;
  if PQgetisnull pgresult column then Ok defVal
  else read_column cfg t pgresult column.

(** The loop of [readArray]: [n] iterations left, each reading a length and,
    unless the length is -1, an element. *)
Fixpoint read_elements (cfg : config) (t : ctype) (defVal : cpp t) (n : nat)
    (buf : cursor) : outcome (list (cpp t) * cursor) :=
  match n with
  | O => Ok ([], buf)
  | S n' =>
      ' (elemSize, buf1) <- read_int32_t cfg buf ;;
      ' (v, buf2) <- (if elemSize =? -1 then Ok (defVal, buf1)
                      else read cfg t buf1) ;;
      ' (vs, buf3) <- read_elements cfg t defVal n' buf2 ;;
      Ok (v :: vs, buf3)
  end.

(** [readArray<T>(pgresult, oid, column, defVal)]. *)
Definition readArray (cfg : config) (t : ctype) (pgresult : option PGresult)
    (oid : Z) (column : Z) (defVal : cpp t) : outcome (list (cpp t)) :=
  if PQgetisnull pgresult column then Ok []
  else
    match PQgetvalue pgresult column with
    | None => Undefined
    | Some buf =>
        ' (ndim, buf) <- read_int32_t cfg buf ;;
        ' (ign, buf) <- read_int32_t cfg buf ;;
        ' (elemType, buf) <- read_int32_t cfg buf ;;
        _ <- assert_oid cfg elemType oid ;;
        _ <- assert_ cfg (ndim =? 1) "ndim == 1" ;;
        ' (size, buf) <- read_int32_t cfg buf ;;
        ' (index, buf) <- read_int32_t cfg buf ;;
        (* array.reserve(size): a negative size, converted to size_t,
           exceeds max_size() *)
        if size <? 0 then Throw length_error
        else
          ' (array, _) <- read_elements cfg t defVal (Z.to_nat size) buf ;;
          Ok array
    end.

(** ** The connection and the result stream *)

(** The connection as the stream sees it: the messages the server has sent
    for the request in flight and that have not been fetched yet, the text
    of the last error, and whether a request is still in flight.  A request
    stays in flight until [PQgetResult] has answered with a null pointer;
    only then does the connection take a new request. *)
Record Connection : Type := {
  pending : list PGresult;
  errorMessage : string;
  busy : bool
}.

Definition is_failure (s : ExecStatusType) : bool :=
  match s with
  | PGRES_BAD_RESPONSE | PGRES_FATAL_ERROR => true
  | _ => false
  end.

(** The connection once message [m] has been handed over and [rest] is still
    pending: an error message leaves its text as the last error. *)
Definition deliver (m : PGresult) (rest : list PGresult) (conn : Connection)
  : Connection :=
  {| pending := rest;
     errorMessage := if is_failure (resultStatus m) then errMsg m
                     else errorMessage conn;
     busy := busy conn |}.

(** The connection once the null pointer that ends the results has been
    handed over. *)
Definition finish (conn : Connection) : Connection :=
  {| pending := []; errorMessage := errorMessage conn; busy := false |}.

(** [PQgetResult]: the next pending message, or a null pointer when the
    request has no more results. *)
Definition PQgetResult (conn : Connection) : option PGresult * Connection :=
  match pending conn with
  | [] => (None, finish conn)
  | m :: rest => (Some m, deliver m rest conn)
  end.

(** Modelled from the spec: [Connection::lastError] is defined with the
    connection, outside the sources at hand; it retrieves the most recent
    server-reported diagnostic text. *)
Definition lastError (conn : Connection) : string := errorMessage conn.

(** The members of [Result]; [num_], an [int], counts the rows fetched. *)
Record Result : Type := {
  conn_ : Connection;
  pgresult_ : option PGresult;
  status_ : ExecStatusType;
  num_ : Z
}.

Definition set_conn (c : Connection) (r : Result) : Result :=
  {| conn_ := c; pgresult_ := pgresult_ r; status_ := status_ r; num_ := num_ r |}.
Definition set_pgresult (p : option PGresult) (r : Result) : Result :=
  {| conn_ := conn_ r; pgresult_ := p; status_ := status_ r; num_ := num_ r |}.
Definition set_status (s : ExecStatusType) (r : Result) : Result :=
  {| conn_ := conn_ r; pgresult_ := pgresult_ r; status_ := s; num_ := num_ r |}.
Definition set_num (n : Z) (r : Result) : Result :=
  {| conn_ := conn_ r; pgresult_ := pgresult_ r; status_ := status_ r; num_ := n |}.

(** [pgresult_ = PQgetResult(conn_)]. *)
Definition fetch (r : Result) : Result :=
  let '(p, c) := PQgetResult (conn_ r) in set_pgresult p (set_conn c r).

(** [Result::Result(conn)]: the constructor assigns [pgresult_] and
    [status_]; [num_] keeps whatever its storage holds, here [num]. *)
Definition new_Result (conn : Connection) (num : Z) : Result :=
  {| conn_ := conn; pgresult_ := None; status_ := PGRES_EMPTY_QUERY;
     num_ := num |}.

(** A member function of [Result] returns with the object updated, throws
    with the object as it was left, or stops on a failed assertion. *)
Inductive run (A : Type) : Type :=
| Returns (a : A) (r : Result)
| Throws (e : exception) (r : Result)
| Aborts (expr : string).

Arguments Returns {A} a r.
Arguments Throws {A} e r.
Arguments Aborts {A} expr.

Definition then_ {A B : Type} (m : run A) (k : A -> Result -> run B) : run B :=
  match m with
  | Returns a r => k a r
  | Throws e r => Throws e r
  | Aborts x => Aborts x
  end.

(** [assert(cond)] inside a member function. *)
Definition check (cfg : config) (cond : bool) (expr : string) (r : Result)
  : run unit :=
  if ndebug cfg then Returns tt r
  else if cond then Returns tt r else Aborts expr.

(** ** [Row]: typed access to the columns of the current tuple *)

(** [Row::isNull]. *)
Definition Row_isNull (cfg : config) (r : Result) (column : Z) : outcome bool :=
  _ <- assert_ cfg (attached (pgresult_ r)) "result_.pgresult_ != nullptr" ;;
  Ok (PQgetisnull (pgresult_ r) column).

(** The output types of [Row::get<T>]: those with a [read<T>], then
    [std::string], [char] and [std::vector<uint8_t>]. *)
Inductive gtype : Type :=
| G_read (t : ctype)
| G_string
| G_char
| G_bytea.

Definition gcpp (g : gtype) : Type :=
  match g with
  | G_read t => cpp t
  | G_string => list byte
  | G_char => byte
  | G_bytea => list byte
  end.

(** The tag and the default each specialization passes on. *)
Definition oid_of (t : ctype) : Z :=
  match t with
  | T_bool => BOOLOID
  | T_int16_t => INT2OID
  | T_int32_t => INT4OID
  | T_int64_t => INT8OID
  | T_float => FLOAT4OID
  | T_double => FLOAT8OID
  | T_date_t => DATEOID
  | T_timestamp_t => TIMESTAMPOID
  | T_timestamptz_t => TIMESTAMPTZOID
  | T_timetz_t => TIMETZOID
  | T_time_t => TIMEOID
  | T_interval_t => INTERVALOID
  end.

Definition default_of (t : ctype) : cpp t :=
  match t return cpp t with
  | T_bool => false
  | T_int16_t | T_int32_t | T_int64_t => 0
  | T_float => Float 0
  | T_double => Double 0
  | T_date_t => Date 0
  | T_timestamp_t => Timestamp 0
  | T_timestamptz_t => Timestamptz 0
  | T_timetz_t => Timetz 0 0
  | T_time_t => Time 0
  | T_interval_t => Interval 0 0 0
  end.

(** [Row::get<std::string>]. *)
Definition Row_get_string (cfg : config) (r : Result) (column : Z)
  : outcome (list byte) :=
  _ <- assert_ cfg (attached (pgresult_ r)) "result_.pgresult_ != nullptr" ;;
  if PQgetisnull (pgresult_ r) column then Ok []
  else
    let length := PQgetlength (pgresult_ r) column in
    match PQgetvalue (pgresult_ r) column with
    | None => Undefined
    | Some buf => Ok (firstn (Z.to_nat length) buf)
    end.

(** [Row::get<char>]; a value buffer of libpq ends with a zero byte, which is
    what the dereference finds when the value is empty. *)
Definition Row_get_char (cfg : config) (r : Result) (column : Z) : outcome byte :=
  _ <- assert_ cfg (attached (pgresult_ r)) "result_.pgresult_ != nullptr" ;;
  if PQgetisnull (pgresult_ r) column then Ok Byte.x00
  else
    _ <- assert_ cfg (PQgetlength (pgresult_ r) column =? 1)
                 "PQgetlength(result_, 0, column) == 1" ;;
    match PQgetvalue (pgresult_ r) column with
    | None => Undefined
    | Some buf => Ok (hd Byte.x00 buf)
    end.

(** [Row::get<std::vector<uint8_t>>]. *)
Definition Row_get_bytea (cfg : config) (r : Result) (column : Z)
  : outcome (list byte) :=
  _ <- assert_ cfg (attached (pgresult_ r)) "result_.pgresult_ != nullptr" ;;
  _ <- assert_oid cfg (PQftype (pgresult_ r) column) BYTEAOID ;;
  let length := PQgetlength (pgresult_ r) column in
  match PQgetvalue (pgresult_ r) column with
  | None => Ok []
  | Some data => Ok (firstn (Z.to_nat length) data)
  end.

(** [Row::get<T>]. *)
Definition Row_get (cfg : config) (g : gtype) (r : Result) (column : Z)
  : outcome (gcpp g) :=
  match g return outcome (gcpp g) with
  | G_read t => read_checked cfg t (pgresult_ r) (oid_of t) column (default_of t)
  | G_string => Row_get_string cfg r column
  | G_char => Row_get_char cfg r column
  | G_bytea => Row_get_bytea cfg r column
  end.

(** The element types of [Row::asArray<T>]. *)
Inductive atype : Type := A_bool | A_int16_t | A_int32_t.

Definition element (a : atype) : ctype :=
  match a with
  | A_bool => T_bool
  | A_int16_t => T_int16_t
  | A_int32_t => T_int32_t
  end.

(** [Row::asArray<T>]. *)
Definition Row_asArray (cfg : config) (a : atype) (r : Result) (column : Z)
  : outcome (list (cpp (element a))) :=
  readArray cfg (element a) (pgresult_ r) (oid_of (element a)) column
            (default_of (element a)).

(** The documented default of each output type. *)
Definition documented_default (g : gtype) : gcpp g :=
  match g return gcpp g with
  | G_read t => default_of t
  | G_string => []
  | G_char => Byte.x00
  | G_bytea => []
  end.

(** ** [Result]: fetching and draining *)

Section Stream.

Variable cfg : config.

(** [Connection::cancel], as seen from the result that calls it: it is
    defined with the connection, outside the sources at hand. *)
Variable cancel : Result -> run unit.

(** [Result::next]. *)
Definition next (r : Result) : run unit :=
  then_ (if attached (pgresult_ r)
         then check cfg (status_eqb (status_ r) PGRES_SINGLE_TUPLE)
                    "status_ == PGRES_SINGLE_TUPLE" r
         else Returns tt r) (fun _ r =>
  let r := fetch r in
  then_ (check cfg (attached (pgresult_ r)) "pgresult_" r) (fun _ r =>
  let r := set_status (PQresultStatus (pgresult_ r)) r in
  match status_ r with
  | PGRES_SINGLE_TUPLE =>
      then_ (check cfg (PQntuples (pgresult_ r) =? 1)
                   "PQntuples(pgresult_) == 1" r) (fun _ r =>
      Returns tt (set_num (wrap 32 (num_ r + 1)) r))
  | PGRES_TUPLES_OK =>
      check cfg (PQntuples (pgresult_ r) =? 0) "PQntuples(pgresult_) == 0" r
  | PGRES_BAD_RESPONSE | PGRES_FATAL_ERROR =>
      Throws (ExecutionException (lastError (conn_ r))) r
  | PGRES_COMMAND_OK => Returns tt r
  | _ => check cfg false "false" r
  end)).

(** [Result::first]. *)
Definition first (r : Result) : run unit :=
  then_ (check cfg (negb (attached (pgresult_ r))) "pgresult_ == nullptr" r)
        (fun _ r => next (set_num 0 r)).

(** The [do ... while] of [Result::clear], run over the queue of pending
    messages: each turn fetches one. *)
Fixpoint clear_loop (queue : list PGresult) (r : Result) : run unit :=
  match queue with
  | [] =>
      Returns tt (set_status PGRES_EMPTY_QUERY
                    (set_pgresult None (set_conn (finish (conn_ r)) r)))
  | m :: rest =>
      let r := set_status (resultStatus m)
                 (set_pgresult (Some m) (set_conn (deliver m rest (conn_ r)) r)) in
      match status_ r with
      | PGRES_BAD_RESPONSE | PGRES_FATAL_ERROR =>
          Throws (ExecutionException (lastError (conn_ r))) r
      | PGRES_EMPTY_QUERY => Returns tt r
      | _ => clear_loop rest r
      end
  end.

(** [Result::clear]. *)
Definition clear (r : Result) : run unit :=
  match status_ r with
  | PGRES_COMMAND_OK => clear_loop (pending (conn_ r)) r
  | PGRES_BAD_RESPONSE | PGRES_FATAL_ERROR | PGRES_TUPLES_OK =>
      let r := fetch r in
      then_ (check cfg (negb (attached (pgresult_ r))) "pgresult_ == nullptr" r)
            (fun _ r => Returns tt (set_status PGRES_EMPTY_QUERY r))
  | PGRES_SINGLE_TUPLE =>
      then_ (next r) (fun _ r =>
      then_ (match status_ r with
             | PGRES_SINGLE_TUPLE => cancel r
             | PGRES_TUPLES_OK =>
                 Returns tt (set_status PGRES_EMPTY_QUERY (fetch r))
             | _ => Returns tt r
             end) (fun _ r =>
      check cfg (negb (attached (pgresult_ r))) "pgresult_ == nullptr" r))
  | _ => Returns tt r
  end.

End Stream.

(** ** Iteration *)

(** An iterator holds a pointer to one of the two rows a [Result] owns,
    [begin_] and [end_]. *)
Inductive iterator : Type := at_begin_ | at_end_.

(** Modelled from the spec: the comparison of iterators is declared with the
    class, outside the sources at hand; two iterators are equal when they
    point to the same row object. *)
Definition iterator_eqb (a b : iterator) : bool :=
  match a, b with
  | at_begin_, at_begin_ | at_end_, at_end_ => true
  | _, _ => false
  end.

(** [Result::begin] and [Result::end]. *)
Definition begin (r : Result) : iterator := at_begin_.

Definition end_ (r : Result) : iterator :=
  if status_eqb (status_ r) PGRES_SINGLE_TUPLE then at_end_ else at_begin_.

(** [Result::iterator::operator++]. *)
Definition iterator_incr (cfg : config) (it : iterator) (r : Result)
  : run iterator :=
  then_ (next cfg r) (fun _ r =>
  if negb (status_eqb (status_ r) PGRES_SINGLE_TUPLE) then
    then_ (check cfg (status_eqb (status_ r) PGRES_TUPLES_OK)
                 "ptr_->result_.status_ == PGRES_TUPLES_OK" r)
          (fun _ r => Returns at_end_ r)
  else Returns it r).

(** A range-based [for] over a result: [begin()] and [end()] are taken once,
    then the loop compares, runs its body and increments.  The body reads
    the row and leaves the stream alone; [range_loop] counts its runs, and
    answers [None] when [fuel] increments were not enough to finish. *)
Fixpoint range_loop (cfg : config) (fuel : nat) (it last : iterator)
    (r : Result) (runs : nat) : option (run nat) :=
  if iterator_eqb it last then Some (Returns runs r)
  else
    match fuel with
    | O => None
    | S fuel' =>
        match iterator_incr cfg it r with
        | Returns it' r' => range_loop cfg fuel' it' last r' (S runs)
        | Throws e r' => Some (Throws e r')
        | Aborts expr => Some (Aborts expr)
        end
    end.

Definition range_for (cfg : config) (fuel : nat) (r : Result) : option (run nat) :=
  range_loop cfg fuel (begin r) (end_ r) r 0.

(** The stream has delivered the zero-row message that ends the rows. *)
Definition exhausted (r : Result) : Prop :=
  status_ r = PGRES_TUPLES_OK /\ attached (pgresult_ r) = true.

(** A message that lets the loop of [clear] go on: neither a failure nor a
    result with the status the loop takes for its way out. *)
Definition passes (m : PGresult) : Prop :=
  is_failure (resultStatus m) = false /\ resultStatus m <> PGRES_EMPTY_QUERY.

(** Messages without columns, for examples. *)
Definition message (s : ExecStatusType) (n : Z) (text : string) : PGresult :=
  {| resultStatus := s; ntuples := n; columns := []; errMsg := text |}.

(** ** Wire images of arrays and example results *)

(** One element on the wire: its length prefix, and its image unless the
    prefix is -1, which marks a null element. *)
Definition encode_element (t : ctype) (e : Z * cpp t) : list byte :=
  encode_int32 (fst e) ++ (if fst e =? -1 then [] else encode t (snd e)).

(** A one-dimensional array on the wire: the header (number of dimensions,
    an ignored word, element tag, size and lower bound of the dimension),
    then the elements. *)
Definition encode_array (t : ctype) (ndim ign elemType index : Z)
    (elems : list (Z * cpp t)) : list byte :=
  encode_int32 ndim ++ encode_int32 ign ++ encode_int32 elemType
  ++ encode_int32 (Z.of_nat (List.length elems)) ++ encode_int32 index
  ++ List.concat (map (encode_element t) elems).

(** What a reader has to produce for an element. *)
Definition element_value (t : ctype) (defVal : cpp t) (e : Z * cpp t) : cpp t :=
  if fst e =? -1 then defVal else snd e.

Definition well_formed_element (t : ctype) (e : Z * cpp t) : Prop :=
  in_range 32 (fst e) /\ value_of t (snd e).

(** The accessors that compare type tags, and the tag each one asks for. *)
Definition tag_checked (g : gtype) : bool :=
  match g with
  | G_read _ | G_bytea => true
  | G_string | G_char => false
  end.

Definition requested_tag (g : gtype) : Z :=
  match g with
  | G_read t => oid_of t
  | G_bytea => BYTEAOID
  | G_string => TEXTOID
  | G_char => CHAROID
  end.

(** A single-tuple message with one column, and a stream positioned on it. *)
Definition one_column (tag : Z) (null : bool) (bytes : list byte) : PGresult :=
  {| resultStatus := PGRES_SINGLE_TUPLE;
     ntuples := 1;
     columns := [ {| fname := "c"; ftype := tag; isnull := null; value := bytes |} ];
     errMsg := "" |}.

Definition idle : Connection :=
  {| pending := []; errorMessage := ""; busy := false |}.

Definition serving (queue : list PGresult) : Connection :=
  {| pending := queue; errorMessage := ""; busy := true |}.

Definition positioned_on (res : PGresult) : Result :=
  {| conn_ := idle; pgresult_ := Some res; status_ := resultStatus res; num_ := 1 |}.

(** [read<T>(pgresult, oid, column, defVal)] with the outcome of the decoder
    it may call, [read<T>(pgresult, column)], left open. *)
Definition read_checked_with {A : Type} (cfg : config) (decoder : outcome A)
    (pgresult : option PGresult) (oid : Z) (column : Z) (defVal : A)
  : outcome A :=
  _ <- assert_ cfg (attached pgresult) "pgresult != nullptr" ;;
  _ <- assert_oid cfg (PQftype pgresult column) oid ;;
  if PQgetisnull pgresult column then Ok defVal else decoder.

(** ** Further members: row number, column names, affected rows *)

(** [Row::num], which returns the counter as an [int]. *)
Definition Row_num (r : Result) : Z := wrap 32 (num_ r).

(** [PQfname]: the name of a column, a null pointer when the result is
    missing or has no such column. *)
Definition PQfname (res : option PGresult) (column : Z) : option string :=
  match field res column with Some c => Some (fname c) | None => None end.

Definition non_null {A : Type} (p : option A) : bool :=
  match p with Some _ => true | None => false end.

(** [Row::columnName]; the pointer it returns is [None] when null. *)
Definition Row_columnName (cfg : config) (r : Result) (column : Z)
  : outcome (option string) :=
  _ <- assert_ cfg (attached (pgresult_ r)) "result_.pgresult_ != nullptr" ;;
  let res := PQfname (pgresult_ r) column in
  _ <- assert_ cfg (non_null res) "res" ;;
  Ok res.

(** [std::strtoull(s, &end, 10)]: leading white space is skipped, a sign is
    taken, then the longest run of decimal digits is converted; no digit
    gives 0, a value that does not fit gives [ULLONG_MAX], and a minus sign
    negates within the unsigned type. *)
Definition isspace (c : Ascii.ascii) : bool :=
  let n := Ascii.nat_of_ascii c in
  ((n =? 32) || ((9 <=? n) && (n <=? 13)))%nat.

Definition digit (c : Ascii.ascii) : option Z :=
  let n := Ascii.nat_of_ascii c in
  if ((48 <=? n) && (n <=? 57))%nat then Some (Z.of_nat n - 48) else None.

Fixpoint skip_space (s : string) : string :=
  match s with
  | String c s' => if isspace c then skip_space s' else s
  | EmptyString => s
  end.

Fixpoint digits (s : string) (acc : Z) : Z :=
  match s with
  | String c s' =>
      match digit c with
      | Some d => digits s' (acc * 10 + d)
      | None => acc
      end
  | EmptyString => acc
  end.

Definition ULLONG_MAX : Z := 2 ^ 64 - 1.

Definition strtoull (s : string) : Z :=
  let s := skip_space s in
  let '(minus, s) :=
    match s with
    | String "-"%char s' => (true, s')
    | String "+"%char s' => (false, s')
    | _ => (false, s)
    end in
  let v := digits s 0 in
  if ULLONG_MAX <? v then ULLONG_MAX
  else if minus then (- v) mod 2 ^ 64 else v.

Section Count.

(** [PQcmdTuples]: the row count libpq finds in the command tag of a result,
    as text; the command tag is not among the fields of [PGresult] above. *)
Variable PQcmdTuples : option PGresult -> string.

(** [Result::count]. *)
Definition Result_count (cfg : config) (r : Result) : outcome Z :=
  _ <- assert_ cfg (attached (pgresult_ r)) "pgresult_" ;;
  Ok (strtoull (PQcmdTuples (pgresult_ r))).

End Count.

(** A row count as the server prints it. *)
Definition decimal (n : nat) : string :=
  DecimalString.NilEmpty.string_of_uint (Nat.to_uint n).

(** The wire image of an array header that declares [size] elements. *)
Definition encode_header (ndim ign elemType size index : Z) : list byte :=
  encode_int32 ndim ++ encode_int32 ign ++ encode_int32 elemType
  ++ encode_int32 size ++ encode_int32 index.

(** A message carrying one tuple, and the zero-row message behind the last
    tuple. *)
Definition is_row (m : PGresult) : Prop :=
  resultStatus m = PGRES_SINGLE_TUPLE /\ ntuples m = 1.

Definition is_end_of_rows (m : PGresult) : Prop :=
  resultStatus m = PGRES_TUPLES_OK /\ ntuples m = 0.

(** The statuses for which [Result::clear] has a case of its own that does
    not go through [next]. *)
Definition settled (s : ExecStatusType) : bool :=
  match s with
  | PGRES_COMMAND_OK | PGRES_BAD_RESPONSE | PGRES_FATAL_ERROR
  | PGRES_TUPLES_OK | PGRES_EMPTY_QUERY => true
  | _ => false
  end.

(** * Properties *)

(** ** Integers and byte order *)

Lemma to_signed_unsigned (bits v : Z) :
  0 < bits -> in_range bits v -> to_signed bits (to_unsigned bits v) = v.
Proof.
  intros Hb [Hlo Hhi]. unfold to_signed, to_unsigned.
  assert (Hp : 2 ^ bits = 2 * 2 ^ (bits - 1)).
  { replace bits with (Z.succ (bits - 1)) at 1 by lia.
    rewrite Z.pow_succ_r by lia. reflexivity. }
  assert (0 < 2 ^ (bits - 1)) by (apply Z.pow_pos_nonneg; lia).
  destruct (Z.neg_nonneg_cases v) as [Hneg | Hpos].
  - replace (v mod 2 ^ bits) with (v + 2 ^ bits).
    + destruct (Z.ltb_spec (v + 2 ^ bits) (2 ^ (bits - 1))); lia.
    + apply Z.mod_unique with (q := -1); lia.
  - rewrite Z.mod_small by lia.
    destruct (Z.ltb_spec v (2 ^ (bits - 1))); lia.
Qed.

Lemma to_unsigned_signed (bits u : Z) :
  0 < bits -> 0 <= u < 2 ^ bits -> to_unsigned bits (to_signed bits u) = u.
Proof.
  intros Hb Hu. unfold to_signed, to_unsigned.
  destruct (Z.ltb_spec u (2 ^ (bits - 1))).
  - apply Z.mod_small; lia.
  - symmetry. apply Z.mod_unique with (q := -1); lia.
Qed.

Lemma wrap_in_range (bits v : Z) :
  0 < bits -> in_range bits v -> wrap bits v = v.
Proof. intros. unfold wrap. now apply to_signed_unsigned. Qed.

Lemma wrap_range (bits v : Z) : 0 < bits -> in_range bits (wrap bits v).
Proof.
  intros Hb. unfold wrap, to_signed, to_unsigned, in_range.
  assert (Hp : 2 ^ bits = 2 * 2 ^ (bits - 1)).
  { replace bits with (Z.succ (bits - 1)) at 1 by lia.
    rewrite Z.pow_succ_r by lia. reflexivity. }
  pose proof (Z.mod_pos_bound v (2 ^ bits)) as Hm.
  assert (0 < 2 ^ bits) by (apply Z.pow_pos_nonneg; lia).
  destruct (Z.ltb_spec (v mod 2 ^ bits) (2 ^ (bits - 1))); lia.
Qed.

Lemma wrap_add_l (bits a b : Z) :
  0 < bits -> wrap bits (wrap bits a + b) = wrap bits (a + b).
Proof.
  intros Hb. unfold wrap at 1 3. f_equal. unfold to_unsigned.
  assert (0 < 2 ^ bits) by (apply Z.pow_pos_nonneg; lia).
  unfold wrap, to_signed, to_unsigned.
  destruct (Z.ltb_spec (a mod 2 ^ bits) (2 ^ (bits - 1))).
  - apply Z.add_mod_idemp_l. lia.
  - replace (a mod 2 ^ bits - 2 ^ bits + b)
      with (a mod 2 ^ bits + b + (-1) * 2 ^ bits) by lia.
    rewrite Z.mod_add by lia. apply Z.add_mod_idemp_l. lia.
Qed.

Lemma wrap_idempotent (bits v : Z) :
  0 < bits -> wrap bits (wrap bits v) = wrap bits v.
Proof. intros Hb. apply wrap_in_range; [exact Hb | now apply wrap_range]. Qed.

(** Whatever the byte order of the host, load followed by [beNtoh] yields
    the big-endian value of the bytes at the cursor. *)
Lemma betoh_load (cfg : config) (bs rest : list byte) :
  bind (load cfg (List.length bs) (bs ++ rest))
       (fun x => Ok (betoh cfg (List.length bs) x))
  = Ok (le_combine (rev bs)).
Proof.
  unfold load, betoh.
  replace (List.length (bs ++ rest) <? List.length bs)%nat with false.
  2:{ symmetry. apply Nat.ltb_ge. rewrite length_app. lia. }
  rewrite firstn_app, Nat.sub_diag, firstn_all, firstn_O, app_nil_r. simpl.
  destruct (big_endian_host cfg); [reflexivity|].
  unfold bswap. now rewrite split_le_combine.
Qed.

Lemma read_int_big_endian (cfg : config) (n : nat) (bs rest : list byte) :
  List.length bs = n ->
  read_int cfg n (bs ++ rest)
  = Ok (to_signed (Z.of_nat n * 8) (le_combine (rev bs)), rest).
Proof.
  intros <-. unfold read_int.
  pose proof (betoh_load cfg bs rest) as H.
  destruct (load cfg (List.length bs) (bs ++ rest)) as [x| | |]; simpl in *;
    try discriminate.
  injection H as ->. unfold advance.
  now rewrite skipn_app, Nat.sub_diag, skipn_all, skipn_O.
Qed.

Lemma length_be_bytes (n : nat) (v : Z) : List.length (be_bytes n v) = n.
Proof. unfold be_bytes. now rewrite length_rev, length_le_split. Qed.

Lemma read_int_be_bytes (cfg : config) (n : nat) (v : Z) (rest : list byte) :
  read_int cfg n (be_bytes n v ++ rest)
  = Ok (wrap (Z.of_nat n * 8) v, rest).
Proof.
  rewrite read_int_big_endian by apply length_be_bytes.
  unfold be_bytes, wrap, to_unsigned.
  now rewrite rev_involutive, le_combine_split.
Qed.

Lemma read_int16_t_encode (cfg : config) (v : Z) (rest : list byte) :
  in_range 16 v -> read_int16_t cfg (encode_int16 v ++ rest) = Ok (v, rest).
Proof.
  intros H. unfold read_int16_t, encode_int16.
  rewrite read_int_be_bytes. now rewrite wrap_in_range.
Qed.

Lemma read_int32_t_encode (cfg : config) (v : Z) (rest : list byte) :
  in_range 32 v -> read_int32_t cfg (encode_int32 v ++ rest) = Ok (v, rest).
Proof.
  intros H. unfold read_int32_t, encode_int32.
  rewrite read_int_be_bytes. now rewrite wrap_in_range.
Qed.

Lemma read_int64_t_encode (cfg : config) (v : Z) (rest : list byte) :
  in_range 64 v -> read_int64_t cfg (encode_int64 v ++ rest) = Ok (v, rest).
Proof.
  intros H. unfold read_int64_t, encode_int64.
  rewrite read_int_be_bytes. now rewrite wrap_in_range.
Qed.

Lemma read_bool_encode (cfg : config) (b : bool) (rest : list byte) :
  read_bool cfg (encode_bool b ++ rest) = Ok (b, rest).
Proof.
  unfold read_bool, encode_bool. simpl.
  rewrite byte.unsigned_of_Z. now destruct b.
Qed.

Lemma read_float_encode (cfg : config) (f : float) (rest : list byte) :
  0 <= float_bits f < 2 ^ 32 ->
  read_float cfg (encode_float f ++ rest) = Ok (f, rest).
Proof.
  intros H. unfold read_float, read_int32_t, encode_float.
  rewrite read_int_be_bytes. simpl. unfold wrap.
  rewrite to_unsigned_signed.
  - unfold to_unsigned. rewrite Z.mod_small by exact H. now destruct f.
  - lia.
  - apply Z.mod_pos_bound. lia.
Qed.

Lemma read_double_encode (cfg : config) (d : double) (rest : list byte) :
  0 <= double_bits d < 2 ^ 64 ->
  read_double cfg (encode_double d ++ rest) = Ok (d, rest).
Proof.
  intros H. unfold read_double, read_int64_t, encode_double.
  rewrite read_int_be_bytes. simpl. unfold wrap.
  rewrite to_unsigned_signed.
  - unfold to_unsigned. rewrite Z.mod_small by exact H. now destruct d.
  - lia.
  - apply Z.mod_pos_bound. lia.
Qed.

(** The same four bytes read on a little-endian and on a big-endian host. *)
Example read_int32_t_256 :
  read_int32_t default_build [Byte.x00; Byte.x00; Byte.x01; Byte.x00; Byte.xff]
  = Ok (256, [Byte.xff])
  /\ read_int32_t {| ndebug := false; big_endian_host := true |}
                  [Byte.x00; Byte.x00; Byte.x01; Byte.x00; Byte.xff]
     = Ok (256, [Byte.xff]).
Proof. split; reflexivity. Qed.

Example read_int16_t_negative :
  read_int16_t default_build [Byte.xff; Byte.xfe] = Ok (-2, []).
Proof. reflexivity. Qed.

(** The image of 1.0f is the bit pattern 0x3F800000, which is what comes
    back, not the number 1065353216 converted to a float. *)
Example read_float_one :
  read_float default_build [Byte.x3f; Byte.x80; Byte.x00; Byte.x00]
  = Ok (Float 0x3F800000, []).
Proof. reflexivity. Qed.

(** A buffer too short for the type has no defined read. *)
Example read_int64_t_short :
  read_int64_t default_build [Byte.x00; Byte.x00; Byte.x01] = Undefined.
Proof. reflexivity. Qed.

Lemma length_encode (t : ctype) (v : cpp t) :
  scalar t = true -> List.length (encode t v) = sizeof t.
Proof.
  intros Hs. destruct t; try discriminate Hs;
    [reflexivity | apply length_be_bytes ..].
Qed.

Lemma read_encode (cfg : config) (t : ctype) (v : cpp t) (rest : list byte) :
  scalar t = true -> value_of t v ->
  read cfg t (encode t v ++ rest) = Ok (v, rest).
Proof.
  intros Hs Hv.
  destruct t; try discriminate Hs; cbn [read encode value_of] in *.
  - apply (read_bool_encode cfg).
  - now apply read_int16_t_encode.
  - now apply read_int32_t_encode.
  - now apply read_int64_t_encode.
  - now apply read_float_encode.
  - now apply read_double_encode.
Qed.

(** C5. For every fixed-width scalar type [t] (bool, int16, int32, int64,
    float and double as bit patterns) and every value [v] of that type,
    reading the big-endian wire image of [v], whatever follows it in the
    buffer and whatever the byte order of the host, returns exactly [v] and
    leaves the cursor [sizeof t] bytes further, just behind the image. *)
Theorem read_encode_roundtrip (cfg : config) (t : ctype) (v : cpp t)
    (rest : list byte) :
  scalar t = true ->
  value_of t v ->
  read cfg t (encode t v ++ rest) = Ok (v, rest)
  /\ List.length (encode t v) = sizeof t
  /\ advance (sizeof t) (encode t v ++ rest) = rest.
Proof.
  intros Hs Hv. split; [now apply read_encode | split].
  - now apply length_encode.
  - unfold advance. rewrite <- (length_encode t v Hs).
    now rewrite skipn_app, Nat.sub_diag, skipn_all, skipn_O.
Qed.

Lemma read_encode_roundtrip_witness :
  read default_build T_int32_t (encode T_int32_t (-2) ++ [Byte.x2a])
  = Ok (-2, [Byte.x2a])
  /\ List.length (encode T_int32_t (-2)) = sizeof T_int32_t
  /\ advance (sizeof T_int32_t) (encode T_int32_t (-2) ++ [Byte.x2a])
     = [Byte.x2a].
Proof.
  apply (read_encode_roundtrip default_build T_int32_t (-2) [Byte.x2a]).
  - reflexivity.
  - simpl. unfold in_range. lia.
Defined.

(** ** Temporal decoding *)

Lemma read_date_t_encode (cfg : config) (d : Z) (rest : list byte) :
  in_range 32 d ->
  read_date_t cfg (encode_int32 d ++ rest)
  = Ok (Date (wrap 32 (wrap 32 (d + DAYS_UNIX_TO_J2000_EPOCH) * 86400)), rest).
Proof.
  intros H. unfold read_date_t. now rewrite read_int32_t_encode.
Qed.

Lemma date_arithmetic_exact (d : Z) :
  in_range 32 ((d + DAYS_UNIX_TO_J2000_EPOCH) * 86400) ->
  wrap 32 (wrap 32 (d + DAYS_UNIX_TO_J2000_EPOCH) * 86400)
  = (d + DAYS_UNIX_TO_J2000_EPOCH) * 86400.
Proof.
  intros H.
  assert (Hs : in_range 32 (d + DAYS_UNIX_TO_J2000_EPOCH)).
  { unfold in_range in *. simpl in *. lia. }
  rewrite (wrap_in_range 32 (d + _)) by (lia || exact Hs).
  apply wrap_in_range; [lia | exact H].
Qed.

(** The wire value 0 is the first day of 2000, 946684800 seconds after the
    Unix epoch. *)
Example read_date_t_zero :
  read_date_t default_build [Byte.x00; Byte.x00; Byte.x00; Byte.x00]
  = Ok (Date 946684800, []).
Proof. reflexivity. Qed.

(** C4 (amended). On the wire images written by the server the temporal
    readers compute: date, [(d + DAYS_UNIX_TO_J2000_EPOCH) * 86400] for the
    wire [int32] [d] in 32-bit arithmetic, which is that product exactly when
    the product fits 32 bits, and the product wrapped around otherwise;
    timestamp and timestamp with zone, [t + MICROSEC_UNIX_TO_J2000_EPOCH] for
    the wire [int64] [t] in 64-bit arithmetic, exact exactly when the sum
    fits 64 bits; time, the wire [int64] unchanged; time with zone, a wire
    [int64] then a wire [int32] zone offset; interval, a wire [int64] then two
    wire [int32] read as days first and months second.  Each reader leaves
    the cursor just behind what it decoded. *)
Theorem temporal_decode (cfg : config) (t d m : Z) (rest : list byte) :
  in_range 64 t -> in_range 32 d -> in_range 32 m ->
  (read cfg T_date_t (encode_int32 d ++ rest)
   = Ok (Date (wrap 32 (wrap 32 (d + DAYS_UNIX_TO_J2000_EPOCH) * 86400)), rest)
   /\ (in_range 32 ((d + DAYS_UNIX_TO_J2000_EPOCH) * 86400) <->
       read cfg T_date_t (encode_int32 d ++ rest)
       = Ok (Date ((d + DAYS_UNIX_TO_J2000_EPOCH) * 86400), rest)))
  /\ (read cfg T_timestamp_t (encode_int64 t ++ rest)
      = Ok (Timestamp (wrap 64 (t + MICROSEC_UNIX_TO_J2000_EPOCH)), rest)
      /\ read cfg T_timestamptz_t (encode_int64 t ++ rest)
         = Ok (Timestamptz (wrap 64 (t + MICROSEC_UNIX_TO_J2000_EPOCH)), rest)
      /\ (in_range 64 (t + MICROSEC_UNIX_TO_J2000_EPOCH) <->
          read cfg T_timestamp_t (encode_int64 t ++ rest)
          = Ok (Timestamp (t + MICROSEC_UNIX_TO_J2000_EPOCH), rest))
      /\ (in_range 64 (t + MICROSEC_UNIX_TO_J2000_EPOCH) <->
          read cfg T_timestamptz_t (encode_int64 t ++ rest)
          = Ok (Timestamptz (t + MICROSEC_UNIX_TO_J2000_EPOCH), rest)))
  /\ read cfg T_time_t (encode_int64 t ++ rest) = Ok (Time t, rest)
  /\ read cfg T_timetz_t (encode_int64 t ++ encode_int32 d ++ rest)
     = Ok ({| timetz_time := t; timetz_offset := d |}, rest)
  /\ read cfg T_interval_t
          (encode_int64 t ++ encode_int32 d ++ encode_int32 m ++ rest)
     = Ok ({| interval_time := t; interval_days := d; interval_months := m |},
           rest).
Proof.
  intros Ht Hd Hm. cbn [read].
  unfold read_timestamp_t, read_timestamptz_t, read_time_t, read_timetz_t,
    read_interval_t.
  rewrite !read_int64_t_encode by assumption. cbn [bind].
  rewrite !read_int32_t_encode by assumption. cbn [bind].
  rewrite read_int32_t_encode by assumption. cbn [bind].
  rewrite read_date_t_encode by assumption.
  assert (H64 : in_range 64 (wrap 64 (t + MICROSEC_UNIX_TO_J2000_EPOCH)))
    by (apply wrap_range; lia).
  assert (H32 : in_range 32
                  (wrap 32 (wrap 32 (d + DAYS_UNIX_TO_J2000_EPOCH) * 86400)))
    by (apply wrap_range; lia).
  split; [split; [reflexivity | split] | split; [|repeat split]].
  - intros Hfit. now rewrite date_arithmetic_exact.
  - intros [= Heq]. now rewrite Heq in H32.
  - split; [reflexivity | split; [reflexivity | split; split]].
    + intros Hfit. now rewrite wrap_in_range by (lia || assumption).
    + intros [= Heq]. now rewrite Heq in H64.
    + intros Hfit. now rewrite wrap_in_range by (lia || assumption).
    + intros [= Heq]. now rewrite Heq in H64.
Qed.

Lemma temporal_decode_witness :
  read default_build T_date_t (encode_int32 1 ++ [])
  = Ok (Date ((1 + DAYS_UNIX_TO_J2000_EPOCH) * 86400), [])
  /\ read default_build T_interval_t
          (encode_int64 5 ++ encode_int32 1 ++ encode_int32 (-3) ++ [])
     = Ok ({| interval_time := 5; interval_days := 1; interval_months := -3 |},
           []).
Proof.
  assert (H64 : in_range 64 5) by (unfold in_range; lia).
  assert (H32 : in_range 32 1) by (unfold in_range; lia).
  assert (H32' : in_range 32 (-3)) by (unfold in_range; lia).
  destruct (temporal_decode default_build 5 1 (-3) [] H64 H32 H32')
    as [[_ Hdate] (_ & _ & _ & Hinterval)].
  split; [apply Hdate; unfold in_range; simpl; lia | exact Hinterval].
Defined.

(** C4 (counterexample). The wire date 20000, a day in October 2054: the
    product [(20000 + 10957) * 86400] is 2674684800, which does not fit the
    32-bit arithmetic of the reader, and the date returned is
    -1620282496.  The largest wire timestamp likewise comes back negative. *)
Lemma date_after_2038_wraps :
  in_range 32 20000
  /\ (20000 + DAYS_UNIX_TO_J2000_EPOCH) * 86400 = 2674684800
  /\ read default_build T_date_t (encode_int32 20000)
     = Ok (Date (-1620282496), [])
  /\ read default_build T_timestamp_t (encode_int64 (2 ^ 63 - 1))
     = Ok (Timestamp (-9222425352054775809), []).
Proof.
  split; [unfold in_range; simpl; lia|].
  split; [reflexivity|]. split; vm_compute; reflexivity.
Qed.

(** ** Type tags *)

Lemma assert_oid_same (cfg : config) (oid : Z) : assert_oid cfg oid oid = Ok tt.
Proof.
  unfold assert_oid. destruct (ndebug cfg); [reflexivity|].
  now rewrite Z.eqb_refl.
Qed.

Lemma assert_oid_mismatch (cfg : config) (expected actual : Z) :
  ndebug cfg = false -> expected <> actual ->
  exists cerr, assert_oid cfg expected actual = Abort cerr "false".
Proof.
  intros Hd Hne. unfold assert_oid. rewrite Hd.
  destruct (Z.eqb_spec expected actual) as [->|_]; [contradiction|].
  destruct (expected_name expected); eauto.
Qed.

Lemma assert_attached (cfg : config) (p : option PGresult) (expr : string) :
  attached p = true -> assert_ cfg (attached p) expr = Ok tt.
Proof. intros ->. unfold assert_. now destruct (ndebug cfg). Qed.

Lemma read_array_header (cfg : config) (t : ctype) (pgresult : option PGresult)
    (oid column : Z) (defVal : cpp t) (ndim ign elemType : Z) (rest : list byte) :
  in_range 32 ndim -> in_range 32 ign -> in_range 32 elemType ->
  PQgetisnull pgresult column = false ->
  PQgetvalue pgresult column
  = Some (encode_int32 ndim ++ encode_int32 ign ++ encode_int32 elemType ++ rest) ->
  readArray cfg t pgresult oid column defVal
  = (_ <- assert_oid cfg elemType oid ;;
     _ <- assert_ cfg (ndim =? 1) "ndim == 1" ;;
     ' (size, buf) <- read_int32_t cfg rest ;;
     ' (index, buf) <- read_int32_t cfg buf ;;
     if size <? 0 then Throw length_error
     else ' (array, _) <- read_elements cfg t defVal (Z.to_nat size) buf ;;
          Ok array).
Proof.
  intros Hn Hi He Hnull Hval. unfold readArray. rewrite Hnull, Hval.
  rewrite read_int32_t_encode by assumption. cbn [bind].
  rewrite read_int32_t_encode by assumption. cbn [bind].
  rewrite read_int32_t_encode by assumption. reflexivity.
Qed.

(** C1 (amended). In a build without [NDEBUG], each accessor [Row::get<T>]
    other than those for [std::string] and [char] compares the tag the server
    reports for the column with the tag of [T] before it looks at the null
    flag or at the bytes, and on a mismatch the call stops on a failed
    assertion: it returns no value, whatever the column holds.
    [Row::asArray<T>] compares the element tag found in the header of a
    non-null array value with the tag of [T] and stops in the same way on a
    mismatch.  When the tags agree the comparison lets the call go on. *)
Theorem checked_accessors_stop_on_mismatch (cfg : config) (r : Result) (column : Z) :
  ndebug cfg = false ->
  attached (pgresult_ r) = true ->
  (forall g, tag_checked g = true ->
     PQftype (pgresult_ r) column <> requested_tag g ->
     exists cerr, Row_get cfg g r column = Abort cerr "false")
  /\ (forall a ndim ign elemType rest,
        in_range 32 ndim -> in_range 32 ign -> in_range 32 elemType ->
        PQgetisnull (pgresult_ r) column = false ->
        PQgetvalue (pgresult_ r) column
        = Some (encode_int32 ndim ++ encode_int32 ign
                ++ encode_int32 elemType ++ rest) ->
        elemType <> oid_of (element a) ->
        exists cerr, Row_asArray cfg a r column = Abort cerr "false")
  /\ (forall oid, assert_oid cfg oid oid = Ok tt).
Proof.
  intros Hd Hatt. split; [|split].
  - intros g Hg Hne.
    destruct (assert_oid_mismatch cfg _ _ Hd Hne) as [cerr Hc].
    exists cerr. destruct g as [t| | |]; try discriminate Hg; cbn [Row_get].
    + unfold read_checked. rewrite assert_attached by assumption. cbn [bind].
      cbn [requested_tag] in Hc. now rewrite Hc.
    + unfold Row_get_bytea. rewrite assert_attached by assumption. cbn [bind].
      cbn [requested_tag] in Hc. now rewrite Hc.
  - intros a ndim ign elemType rest Hn Hi He Hnull Hval Hne.
    destruct (assert_oid_mismatch cfg _ _ Hd Hne) as [cerr Hc].
    exists cerr. unfold Row_asArray.
    rewrite (read_array_header cfg _ _ _ _ _ ndim ign elemType rest) by assumption.
    now rewrite Hc.
  - intros oid. apply assert_oid_same.
Qed.

Lemma checked_accessors_stop_on_mismatch_witness :
  exists cerr,
    Row_get default_build (G_read T_int64_t)
            (positioned_on (one_column INT4OID false (encode_int32 7))) 0
    = Abort cerr "false".
Proof.
  destruct (checked_accessors_stop_on_mismatch default_build
              (positioned_on (one_column INT4OID false (encode_int32 7))) 0
              eq_refl eq_refl) as [H _].
  apply (H (G_read T_int64_t)).
  - reflexivity.
  - vm_compute. discriminate.
Defined.

(** C1 (counterexample). [Row::get<std::string>] asked for a column the
    server reports as [int4] raises nothing in the default build: it hands
    back the four bytes of the integer as a string. *)
Lemma string_accessor_ignores_tag :
  let r := positioned_on (one_column INT4OID false (encode_int32 7)) in
  PQftype (pgresult_ r) 0 = INT4OID
  /\ ~ In INT4OID [CHAROID; NAMEOID; TEXTOID; BPCHAROID; VARCHAROID]
  /\ Row_get default_build G_string r 0 = Ok (encode_int32 7).
Proof.
  split; [reflexivity | split; [|vm_compute; reflexivity]].
  intros H. repeat (destruct H as [H | H]; [discriminate H|]). exact H.
Qed.

(** ** Null columns *)

Lemma isNull_true (cfg : config) (r : Result) (column : Z) :
  Row_isNull cfg r column = Ok true ->
  PQgetisnull (pgresult_ r) column = true
  /\ assert_ cfg (attached (pgresult_ r)) "result_.pgresult_ != nullptr" = Ok tt
  /\ assert_ cfg (attached (pgresult_ r)) "pgresult != nullptr" = Ok tt.
Proof.
  unfold Row_isNull, assert_.
  destruct (ndebug cfg); cbn [bind].
  - intros [= ->]. auto.
  - destruct (attached (pgresult_ r)); cbn [bind]; [|discriminate].
    intros [= ->]. auto.
Qed.

(** C2 (amended). If [isNull(c)] holds, and the tag the server reports for
    column [c] is the one the accessor asks for (or the accessor is one that
    asks for none, or the build has [NDEBUG]), then [Row::get<T>(c)] returns
    the documented default of [T]: false, zero, the empty string, the zero
    character, a zero-valued temporal record, the empty vector.  The byte
    decoder is not run: the accessor is the checked read around the decoder,
    and on such a column the checked read returns the default whatever the
    decoder would do, were it to fail, stop or return another value.
    [Row::asArray<T>(c)] returns the empty vector for a null column without
    any condition on tags. *)
Theorem null_column_yields_default (cfg : config) (g : gtype) (r : Result)
    (column : Z) :
  Row_isNull cfg r column = Ok true ->
  (ndebug cfg = true \/ tag_checked g = false
   \/ PQftype (pgresult_ r) column = requested_tag g) ->
  Row_get cfg g r column = Ok (documented_default g)
  /\ (forall t,
        Row_get cfg (G_read t) r column
        = read_checked_with cfg (read_column cfg t (pgresult_ r) column)
            (pgresult_ r) (oid_of t) column (default_of t)
        /\ (ndebug cfg = true \/ PQftype (pgresult_ r) column = oid_of t ->
            forall decoder,
              read_checked_with cfg decoder (pgresult_ r) (oid_of t) column
                (default_of t)
              = Ok (default_of t)))
  /\ (forall a, Row_asArray cfg a r column = Ok []).
Proof.
  intros Hnull Htag.
  destruct (isNull_true cfg r column Hnull) as (Hn & Ha & Ha').
  assert (Hoid : forall oid, PQftype (pgresult_ r) column = oid \/ ndebug cfg = true ->
                             assert_oid cfg (PQftype (pgresult_ r) column) oid = Ok tt).
  { intros oid [<- | Hd]; [apply assert_oid_same|].
    unfold assert_oid. now rewrite Hd. }
  split; [|split].
  - destruct g as [t| | |]; cbn [Row_get documented_default].
    + unfold read_checked. rewrite Ha'. cbn [bind].
      rewrite Hoid, Hn; [reflexivity|].
      destruct Htag as [Hd | [Hc | Ht]]; [now right | discriminate Hc | now left].
    + unfold Row_get_string. rewrite Ha. cbn [bind]. now rewrite Hn.
    + unfold Row_get_char. rewrite Ha. cbn [bind]. now rewrite Hn.
    + unfold Row_get_bytea. rewrite Ha. cbn [bind].
      rewrite Hoid.
      2:{ destruct Htag as [Hd | [Hc | Ht]];
            [now right | discriminate Hc | now left]. }
      cbn [bind]. unfold PQgetlength, PQgetvalue.
      unfold PQgetisnull in Hn.
      destruct (tuple_field (pgresult_ r) column) as [c|]; [|reflexivity].
      now rewrite Hn.
  - intros t. split; [reflexivity|].
    intros Ht decoder. unfold read_checked_with. rewrite Ha'. cbn [bind].
    rewrite Hoid, Hn; [reflexivity|].
    destruct Ht as [Hd | Ht]; [now right | now left].
  - intros a. unfold Row_asArray, readArray. now rewrite Hn.
Qed.

Lemma null_column_yields_default_witness :
  Row_get default_build (G_read T_interval_t)
          (positioned_on (one_column INTERVALOID true [])) 0
  = Ok (Interval 0 0 0).
Proof.
  destruct (null_column_yields_default default_build (G_read T_interval_t)
              (positioned_on (one_column INTERVALOID true [])) 0)
    as (H & _).
  - reflexivity.
  - right. right. reflexivity.
  - exact H.
Defined.

(** C2 (counterexample). In the default build, [get<int64_t>] on a null
    column that the server reports as [int4] does not return 0: the tags are
    compared before the null flag is looked at and the call stops there. *)
Lemma null_column_wrong_tag_stops :
  let r := positioned_on (one_column INT4OID true []) in
  Row_isNull default_build r 0 = Ok true
  /\ Row_get default_build (G_read T_int64_t) r 0
     = Abort ("Unexpected C++ type. Please use get<int32_t>(int column)" ++ endl)
             "false"
  /\ Row_get default_build (G_read T_int64_t) r 0
     <> Ok (documented_default (G_read T_int64_t)).
Proof.
  split; [reflexivity | split; [reflexivity | discriminate]].
Qed.

(** ** Arrays *)

Lemma read_element_encode (cfg : config) (t : ctype) (defVal : cpp t)
    (e : Z * cpp t) (rest : list byte) :
  scalar t = true -> well_formed_element t e ->
  bind (read_int32_t cfg (encode_element t e ++ rest))
       (fun '(elemSize, buf1) =>
          if elemSize =? -1 then Ok (defVal, buf1) else read cfg t buf1)
  = Ok (element_value t defVal e, rest).
Proof.
  intros Hs [Hlen Hv]. unfold encode_element, element_value.
  rewrite <- app_assoc, read_int32_t_encode by assumption. cbn [bind].
  destruct (fst e =? -1); [reflexivity|].
  now apply read_encode.
Qed.

(** The loop reads exactly the elements it is asked for and stops at the
    first byte behind them. *)
Lemma read_elements_encode (cfg : config) (t : ctype) (defVal : cpp t)
    (elems : list (Z * cpp t)) (rest : list byte) :
  scalar t = true -> Forall (well_formed_element t) elems ->
  read_elements cfg t defVal (List.length elems)
                (List.concat (map (encode_element t) elems) ++ rest)
  = Ok (map (element_value t defVal) elems, rest).
Proof.
  intros Hs Hwf. induction Hwf as [|e elems He _ IH]; [reflexivity|].
  cbn [List.length map List.concat read_elements]. rewrite <- app_assoc.
  pose proof (read_element_encode cfg t defVal e
                (List.concat (map (encode_element t) elems) ++ rest) Hs He) as H.
  destruct (read_int32_t cfg _) as [[elemSize buf1]| | |]; cbn [bind] in *;
    try discriminate H.
  rewrite H. cbn [bind]. now rewrite IH.
Qed.

Lemma in_range_32_one : in_range 32 1.
Proof. unfold in_range. simpl. lia. Qed.

Lemma readArray_encode (cfg : config) (t : ctype)
    (pgresult : option PGresult) (oid column : Z) (defVal : cpp t)
    (ign index : Z) (elems : list (Z * cpp t)) (rest : list byte) :
  scalar t = true ->
  in_range 32 ign -> in_range 32 index -> in_range 32 oid ->
  Z.of_nat (List.length elems) < 2 ^ 31 ->
  Forall (well_formed_element t) elems ->
  PQgetisnull pgresult column = false ->
  PQgetvalue pgresult column
  = Some (encode_array t 1 ign oid index elems ++ rest) ->
  readArray cfg t pgresult oid column defVal
  = Ok (map (element_value t defVal) elems).
Proof.
  intros Hs Hi Hx Ho Hn Hwf Hnull Hval.
  assert (HN : in_range 32 (Z.of_nat (List.length elems))).
  { unfold in_range. simpl in *. lia. }
  unfold encode_array in Hval. rewrite <- !app_assoc in Hval.
  rewrite (read_array_header cfg t pgresult oid column defVal 1 ign oid _
             in_range_32_one Hi Ho Hnull Hval).
  rewrite assert_oid_same. cbn [bind].
  replace (assert_ cfg (1 =? 1) "ndim == 1") with (Ok tt)
    by (unfold assert_; now destruct (ndebug cfg)).
  cbn [bind].
  rewrite read_int32_t_encode by assumption. cbn [bind].
  rewrite read_int32_t_encode by assumption. cbn [bind].
  destruct (Z.ltb_spec (Z.of_nat (List.length elems)) 0); [lia|].
  rewrite Nat2Z.id, read_elements_encode by assumption. reflexivity.
Qed.

Lemma oid_of_in_range (t : ctype) : in_range 32 (oid_of t).
Proof. destruct t; vm_compute; (split; [discriminate | reflexivity]). Qed.

(** C6. For a non-null column holding a one-dimensional array whose header
    declares [N] elements of the requested element type, [readArray] returns
    a sequence of exactly [N] values: the caller's default wherever the
    length prefix on the wire is -1, the decoded wire value at every other
    position.  [Row::asArray<T>] returns the same sequence with the default
    of its element type (false or zero), for bool, int16 and int32.  The
    result is the same whatever bytes follow the [N]th element, so nothing
    beyond the declared elements is read. *)
Theorem readArray_decodes_declared_elements (cfg : config) (column : Z)
    (ign index : Z) (rest : list byte) :
  in_range 32 ign -> in_range 32 index ->
  (forall (t : ctype) (pgresult : option PGresult) (oid : Z) (defVal : cpp t)
          (elems : list (Z * cpp t)),
     scalar t = true -> in_range 32 oid ->
     Z.of_nat (List.length elems) < 2 ^ 31 ->
     Forall (well_formed_element t) elems ->
     PQgetisnull pgresult column = false ->
     PQgetvalue pgresult column
     = Some (encode_array t 1 ign oid index elems ++ rest) ->
     exists array,
       readArray cfg t pgresult oid column defVal = Ok array
       /\ List.length array = List.length elems
       /\ array = map (element_value t defVal) elems
       /\ forall i e, nth_error elems i = Some e ->
            nth_error array i = Some (if fst e =? -1 then defVal else snd e))
  /\ (forall (a : atype) (r : Result) (elems : list (Z * cpp (element a))),
        Z.of_nat (List.length elems) < 2 ^ 31 ->
        Forall (well_formed_element (element a)) elems ->
        PQgetisnull (pgresult_ r) column = false ->
        PQgetvalue (pgresult_ r) column
        = Some (encode_array (element a) 1 ign (oid_of (element a)) index elems
                ++ rest) ->
        exists array,
          Row_asArray cfg a r column = Ok array
          /\ List.length array = List.length elems
          /\ array
             = map (element_value (element a) (default_of (element a))) elems
          /\ forall i e, nth_error elems i = Some e ->
               nth_error array i
               = Some (if fst e =? -1 then default_of (element a) else snd e)).
Proof.
  intros Hi Hx. split.
  - intros t pgresult oid defVal elems Hs Ho Hn Hwf Hnull Hval.
    exists (map (element_value t defVal) elems).
    split; [now apply (readArray_encode cfg t pgresult oid column defVal
                         ign index elems rest)|].
    split; [apply length_map | split; [reflexivity|]].
    intros i e Hie. now rewrite nth_error_map, Hie.
  - intros a r elems Hn Hwf Hnull Hval.
    exists (map (element_value (element a) (default_of (element a))) elems).
    split.
    + unfold Row_asArray.
      apply (readArray_encode cfg (element a) (pgresult_ r) _ column _
               ign index elems rest); try assumption.
      * now destruct a.
      * apply oid_of_in_range.
    + split; [apply length_map | split; [reflexivity|]].
      intros i e Hie. now rewrite nth_error_map, Hie.
Qed.

Lemma readArray_decodes_declared_elements_witness :
  Row_asArray default_build A_int32_t
    (positioned_on
       (one_column 1007 false
          (encode_array T_int32_t 1 0 INT4OID 1 [(4, 10); (-1, 0); (4, 30)])))
    0
  = Ok [10; 0; 30]
  /\ readArray default_build T_int32_t
       (Some (one_column 1007 false
                (encode_array T_int32_t 1 0 INT4OID 1
                              [(4, 10); (-1, 0); (4, 30)])))
       INT4OID 0 (-1)
     = Ok [10; -1; 30].
Proof.
  assert (R : forall v, -100 <= v <= 100 -> in_range 32 v)
    by (intros v Hv; unfold in_range; simpl; lia).
  assert (Hwf : Forall (well_formed_element T_int32_t)
                       [(4, 10); (-1, 0); (4, 30)])
    by (repeat constructor; simpl; apply R; lia).
  destruct (readArray_decodes_declared_elements default_build 0 0 1 [Byte.x00])
    as [Hread Has]; [apply R; lia | apply R; lia |].
  split.
  - destruct (Has A_int32_t
                (positioned_on
                   (one_column 1007 false
                      (encode_array T_int32_t 1 0 INT4OID 1
                                    [(4, 10); (-1, 0); (4, 30)])))
                [(4, 10); (-1, 0); (4, 30)])
      as (array & -> & _ & -> & _); try reflexivity; exact Hwf.
  - destruct (Hread T_int32_t
                (Some (one_column 1007 false
                         (encode_array T_int32_t 1 0 INT4OID 1
                                       [(4, 10); (-1, 0); (4, 30)])))
                INT4OID (-1) [(4, 10); (-1, 0); (4, 30)])
      as (array & -> & _ & -> & _); try reflexivity; try exact Hwf.
    apply R; unfold INT4OID; lia.
Defined.

(** C8 (amended). In a build without [NDEBUG], for every non-null array value
    whose header gives a number of dimensions other than 1, the array decode
    returns no vector: it stops on the assertion [ndim == 1] when the element
    tag in the header is the requested one, and on the element-tag assertion,
    which comes first, when it is not. *)
Theorem readArray_rejects_other_dimensions (cfg : config) (t : ctype)
    (pgresult : option PGresult) (oid column : Z) (defVal : cpp t)
    (ndim ign elemType : Z) (rest : list byte) :
  ndebug cfg = false ->
  in_range 32 ndim -> in_range 32 ign -> in_range 32 elemType ->
  PQgetisnull pgresult column = false ->
  PQgetvalue pgresult column
  = Some (encode_int32 ndim ++ encode_int32 ign ++ encode_int32 elemType ++ rest) ->
  ndim <> 1 ->
  (elemType = oid ->
   readArray cfg t pgresult oid column defVal = Abort "" "ndim == 1")
  /\ (elemType <> oid ->
      exists cerr, readArray cfg t pgresult oid column defVal = Abort cerr "false")
  /\ (forall array, readArray cfg t pgresult oid column defVal <> Ok array).
Proof.
  intros Hd Hn Hi He Hnull Hval Hdim.
  rewrite (read_array_header cfg t pgresult oid column defVal ndim ign elemType
             rest Hn Hi He Hnull Hval).
  assert (Hassert : assert_ cfg (ndim =? 1) "ndim == 1" = Abort "" "ndim == 1").
  { unfold assert_. rewrite Hd. now destruct (Z.eqb_spec ndim 1). }
  destruct (Z.eq_dec elemType oid) as [-> | Hne].
  - rewrite assert_oid_same. cbn [bind]. rewrite Hassert. cbn [bind].
    split; [reflexivity | split; [congruence | discriminate]].
  - destruct (assert_oid_mismatch cfg _ _ Hd Hne) as [cerr ->]. cbn [bind].
    split; [congruence | split; [eauto | discriminate]].
Qed.

Lemma readArray_rejects_other_dimensions_witness :
  readArray default_build T_int32_t
    (Some (one_column 1007 false
             (encode_int32 2 ++ encode_int32 0 ++ encode_int32 INT4OID ++ [])))
    INT4OID 0 0
  = Abort "" "ndim == 1".
Proof.
  assert (R : forall v, -100 <= v <= 100 -> in_range 32 v)
    by (intros v Hv; unfold in_range; simpl; lia).
  apply (readArray_rejects_other_dimensions default_build T_int32_t
           (Some (one_column 1007 false
                    (encode_int32 2 ++ encode_int32 0 ++ encode_int32 INT4OID ++ [])))
           INT4OID 0 0 2 0 INT4OID [Byte.x00]); try reflexivity.
  - apply R; lia.
  - apply R; lia.
  - apply R; unfold INT4OID; lia.
  - discriminate.
Defined.

(** C8 (counterexample). A two-dimensional [int2] array read with
    [asArray<int32_t>] in the default build is not turned down for its
    dimensions: the element-tag assertion stops the call first. *)
Lemma two_dimensions_wrong_tag :
  Row_asArray default_build A_int32_t
    (positioned_on
       (one_column 1005 false
          (encode_int32 2 ++ encode_int32 0 ++ encode_int32 INT2OID
           ++ encode_int32 1 ++ encode_int32 1 ++ encode_int32 1 ++ encode_int32 1)))
    0
  = Abort ("Unexpected C++ type. Please use get<int16_t>(int column)" ++ endl)
          "false"
  /\ Row_asArray default_build A_int32_t
       (positioned_on
          (one_column 1005 false
             (encode_int32 2 ++ encode_int32 0 ++ encode_int32 INT2OID
              ++ encode_int32 1 ++ encode_int32 1 ++ encode_int32 1
              ++ encode_int32 1)))
       0
     <> Abort "" "ndim == 1".
Proof. split; [vm_compute; reflexivity | vm_compute; discriminate]. Qed.

(** ** The stream *)

Lemma status_eqb_neq (a b : ExecStatusType) : status_eqb a b = false <-> a <> b.
Proof. destruct a, b; simpl; split; intros H; congruence. Qed.

(** One turn of the loop of [clear], written with the fetch of the source. *)
Lemma clear_loop_turn (r : Result) :
  clear_loop (pending (conn_ r)) r
  = let r1 := fetch r in
    match pgresult_ r1 with
    | None => Returns tt (set_status PGRES_EMPTY_QUERY r1)
    | Some _ =>
        let r2 := set_status (PQresultStatus (pgresult_ r1)) r1 in
        match status_ r2 with
        | PGRES_BAD_RESPONSE | PGRES_FATAL_ERROR =>
            Throws (ExecutionException (lastError (conn_ r2))) r2
        | PGRES_EMPTY_QUERY => Returns tt r2
        | _ => clear_loop (pending (conn_ r2)) r2
        end
    end.
Proof.
  unfold fetch, PQgetResult. destruct r as [[queue err] p s n]. simpl.
  destruct queue as [|m rest]; reflexivity.
Qed.

(** C10. Whenever the status of the stream is not [PGRES_SINGLE_TUPLE] (no
    result attached, a command without rows, a query without rows),
    [Result::end()] is an iterator equal to [Result::begin()], and a
    range-based loop over the result finishes without running its body and
    without touching the stream. *)
Theorem end_is_begin_without_tuple (cfg : config) (r : Result) :
  status_ r <> PGRES_SINGLE_TUPLE ->
  end_ r = begin r
  /\ iterator_eqb (begin r) (end_ r) = true
  /\ forall fuel, range_for cfg fuel r = Some (Returns 0%nat r).
Proof.
  intros H. apply status_eqb_neq in H.
  assert (He : end_ r = begin r) by (unfold end_; now rewrite H).
  split; [exact He | split].
  - now rewrite He.
  - intros fuel. unfold range_for. rewrite He.
    destruct fuel; reflexivity.
Qed.

Lemma end_is_begin_without_tuple_witness :
  end_ (new_Result idle 7) = begin (new_Result idle 7)
  /\ iterator_eqb (begin (new_Result idle 7)) (end_ (new_Result idle 7)) = true
  /\ forall fuel,
       range_for default_build fuel (new_Result idle 7)
       = Some (Returns 0%nat (new_Result idle 7)).
Proof.
  apply (end_is_begin_without_tuple default_build (new_Result idle 7)).
  discriminate.
Defined.

(** Three rows then the end of rows: the loop body runs three times. *)
Example three_rows_iterated :
  let row := message PGRES_SINGLE_TUPLE 1 "" in
  let queue := [row; row; row; message PGRES_TUPLES_OK 0 ""] in
  match first default_build (new_Result (serving queue) 7) with
  | Returns _ r =>
      match range_for default_build 10 r with
      | Some (Returns runs r') =>
          runs = 3%nat /\ status_ r' = PGRES_TUPLES_OK /\ num_ r' = 3
      | _ => False
      end
  | _ => False
  end.
Proof. vm_compute. repeat split. Qed.

(** What a throwing [next] leaves behind. *)
Lemma next_throws_inv (cfg : config) (r r' : Result) (e : exception) :
  next cfg r = Throws e r' ->
  is_failure (status_ r') = true
  /\ num_ r' = num_ r
  /\ e = ExecutionException (lastError (conn_ r')).
Proof.
  unfold next, check, then_.
  destruct (attached (pgresult_ r)), (ndebug cfg),
    (status_eqb (status_ r) PGRES_SINGLE_TUPLE);
    try discriminate;
    destruct r as [[queue err] p s n]; unfold fetch, PQgetResult; simpl;
    destruct queue as [|m rest]; simpl; try discriminate;
    try (intros [= <- <-]; auto);
    destruct (resultStatus m) eqn:Hm; simpl;
    repeat match goal with
           | |- context [if ?c then _ else _] => destruct c
           end;
    try discriminate; intros [= <- <-]; simpl; rewrite ?Hm; auto.
Qed.

(** The fetch of [next()], once reached, on a failing message. *)
Lemma next_at_failure (cfg : config) (r : Result) (m : PGresult)
    (rest : list PGresult) :
  pending (conn_ r) = m :: rest ->
  is_failure (resultStatus m) = true ->
  (attached (pgresult_ r) = false \/ status_ r = PGRES_SINGLE_TUPLE
   \/ ndebug cfg = true) ->
  next cfg r
  = Throws (ExecutionException (errMsg m))
      {| conn_ := deliver m rest (conn_ r); pgresult_ := Some m;
         status_ := resultStatus m; num_ := num_ r |}.
Proof.
  intros Hq Hm Hreach. unfold next.
  assert (Hfirst : (if attached (pgresult_ r)
                    then check cfg (status_eqb (status_ r) PGRES_SINGLE_TUPLE)
                               "status_ == PGRES_SINGLE_TUPLE" r
                    else Returns tt r) = Returns tt r).
  { unfold check. destruct Hreach as [-> | [-> | ->]]; [reflexivity | |].
    - now destruct (attached _), (ndebug cfg).
    - now destruct (attached _). }
  rewrite Hfirst. cbn [then_]. unfold fetch, PQgetResult. rewrite Hq.
  unfold check. simpl.
  destruct (ndebug cfg); simpl;
    destruct (resultStatus m) eqn:Es; try discriminate Hm;
    unfold lastError, deliver; simpl; rewrite Es; reflexivity.
Qed.

(** C9. Whenever the fetch of [next()] or [first()] receives a message whose
    status is fatal-error or bad-response, the call throws the execution
    error carrying the last error text of the connection, which is the
    diagnostic of that message; the stream is left on the failing message,
    not on a tuple: the row counter has not advanced and [end()] equals
    [begin()].  In general a call of [next()] that throws has not yielded a
    row. *)
Theorem next_throws_on_failure (cfg : config) (r : Result) (m : PGresult)
    (rest : list PGresult) :
  pending (conn_ r) = m :: rest ->
  is_failure (resultStatus m) = true ->
  let failed n :=
    {| conn_ := deliver m rest (conn_ r); pgresult_ := Some m;
       status_ := resultStatus m; num_ := n |} in
  ((attached (pgresult_ r) = false \/ status_ r = PGRES_SINGLE_TUPLE
    \/ ndebug cfg = true) ->
   next cfg r = Throws (ExecutionException (errMsg m)) (failed (num_ r)))
  /\ (attached (pgresult_ r) = false ->
      first cfg r = Throws (ExecutionException (errMsg m)) (failed 0))
  /\ (forall n, lastError (conn_ (failed n)) = errMsg m
                /\ status_ (failed n) <> PGRES_SINGLE_TUPLE
                /\ end_ (failed n) = begin (failed n))
  /\ (forall e r', next cfg r = Throws e r' ->
        status_ r' <> PGRES_SINGLE_TUPLE /\ num_ r' = num_ r
        /\ e = ExecutionException (lastError (conn_ r'))).
Proof.
  intros Hq Hm failed.
  split; [|split; [|split]].
  - intros Hreach. now apply next_at_failure.
  - intros Hnone. unfold first, check. rewrite Hnone. simpl.
    assert (Hgo : next cfg (set_num 0 r)
                  = Throws (ExecutionException (errMsg m)) (failed 0)).
    { apply (next_at_failure cfg (set_num 0 r)); [exact Hq | exact Hm | now left]. }
    destruct (ndebug cfg); exact Hgo.
  - intros n. unfold failed, lastError, deliver, end_. simpl. rewrite Hm.
    destruct (resultStatus m); try discriminate Hm; repeat split; discriminate.
  - intros e r' Hthrow.
    destruct (next_throws_inv cfg r r' e Hthrow) as (Hf & Hn & He).
    repeat split; try assumption.
    intros Hs. rewrite Hs in Hf. discriminate.
Qed.

Lemma next_throws_on_failure_witness :
  first default_build
        (new_Result (serving [message PGRES_FATAL_ERROR 0 "syntax error"]) 7)
  = Throws (ExecutionException "syntax error")
      {| conn_ := {| pending := []; errorMessage := "syntax error";
                     busy := true |};
         pgresult_ := Some (message PGRES_FATAL_ERROR 0 "syntax error");
         status_ := PGRES_FATAL_ERROR; num_ := 0 |}.
Proof.
  destruct (next_throws_on_failure default_build
              (new_Result (serving [message PGRES_FATAL_ERROR 0 "syntax error"]) 7)
              (message PGRES_FATAL_ERROR 0 "syntax error") []
              eq_refl eq_refl) as (_ & H & _).
  exact (H eq_refl).
Defined.

(** ** Draining *)

Lemma clear_loop_stops_at_failure (pre post : list PGresult) (m : PGresult)
    (r : Result) :
  Forall passes pre -> is_failure (resultStatus m) = true ->
  exists c,
    clear_loop (pre ++ m :: post) r
    = Throws (ExecutionException (errMsg m))
        {| conn_ := c; pgresult_ := Some m; status_ := resultStatus m;
           num_ := num_ r |}
    /\ pending c = post /\ busy c = busy (conn_ r).
Proof.
  intros Hpre Hm. revert r.
  induction Hpre as [|p pre [Hp Hq] _ IH]; intros r.
  - exists (deliver m post (conn_ r)). cbn [app clear_loop].
    unfold lastError, deliver. simpl. rewrite Hm.
    destruct (resultStatus m); try discriminate Hm; auto.
  - cbn [app clear_loop]. simpl.
    destruct (resultStatus p) eqn:Ep; try discriminate Hp; try contradiction;
      apply (IH (set_status _ (set_pgresult (Some p)
                   (set_conn (deliver p (pre ++ m :: post) (conn_ r)) r)))).
Qed.

Lemma clear_loop_reaches_sentinel (queue : list PGresult) (r : Result) :
  Forall passes queue ->
  exists c,
    clear_loop queue r
    = Returns tt {| conn_ := c; pgresult_ := None;
                    status_ := PGRES_EMPTY_QUERY; num_ := num_ r |}
    /\ pending c = [] /\ busy c = false.
Proof.
  intros Hq. revert r. induction Hq as [|p queue [Hp Hne] _ IH]; intros r.
  - exists (finish (conn_ r)). repeat split.
  - cbn [clear_loop]. simpl.
    destruct (resultStatus p) eqn:Ep; try discriminate Hp; try contradiction;
      match goal with
      | |- context [clear_loop queue ?r1] =>
          destruct (IH r1) as (c & -> & Hc); exists c;
            (split; [reflexivity | exact Hc])
      end.
Qed.

(** C3 (amended). When [clear()] meets a fatal-error or bad-response message
    while it drains, it throws the execution error of that first failing
    message at once and fetches nothing more in that call: the messages the
    server sent behind the failing one are still pending, the null pointer
    that ends the results has not been fetched, so the request is still in
    flight, and the stream is left on the failing message.  This holds for
    the loop over command results and for the drain of a stream abandoned on
    a tuple.  Only when no failing message comes does the loop over command
    results go on to the no-more-results sentinel, which leaves nothing
    pending and the connection free for a new request. *)
Theorem clear_stops_at_first_failure (cfg : config) (cancel : Result -> run unit)
    (r : Result) (pre post : list PGresult) (m : PGresult) :
  is_failure (resultStatus m) = true ->
  Forall passes pre ->
  (status_ r = PGRES_COMMAND_OK -> pending (conn_ r) = pre ++ m :: post ->
   exists c,
     clear cfg cancel r
     = Throws (ExecutionException (errMsg m))
         {| conn_ := c; pgresult_ := Some m; status_ := resultStatus m;
            num_ := num_ r |}
     /\ pending c = post /\ busy c = busy (conn_ r))
  /\ (status_ r = PGRES_SINGLE_TUPLE -> pending (conn_ r) = m :: post ->
      exists c,
        clear cfg cancel r
        = Throws (ExecutionException (errMsg m))
            {| conn_ := c; pgresult_ := Some m; status_ := resultStatus m;
               num_ := num_ r |}
        /\ pending c = post /\ busy c = busy (conn_ r))
  /\ (status_ r = PGRES_COMMAND_OK -> pending (conn_ r) = pre ->
      exists c,
        clear cfg cancel r
        = Returns tt {| conn_ := c; pgresult_ := None;
                        status_ := PGRES_EMPTY_QUERY; num_ := num_ r |}
        /\ pending c = [] /\ busy c = false).
Proof.
  intros Hm Hpre. split; [|split].
  - intros Hs Hq. unfold clear. rewrite Hs, Hq.
    apply clear_loop_stops_at_failure; assumption.
  - intros Hs Hq. unfold clear. rewrite Hs.
    rewrite (next_at_failure cfg r m post Hq Hm) by (right; left; exact Hs).
    cbn [then_]. eexists. repeat split.
  - intros Hs Hq. unfold clear. rewrite Hs, Hq.
    now apply clear_loop_reaches_sentinel.
Qed.

Lemma clear_stops_at_first_failure_witness :
  let ok := message PGRES_COMMAND_OK 0 "" in
  let failing := message PGRES_FATAL_ERROR 0 "division by zero" in
  exists c,
    clear default_build (fun r => Returns tt r)
      {| conn_ := serving [ok; failing]; pgresult_ := Some ok;
         status_ := PGRES_COMMAND_OK; num_ := 0 |}
    = Throws (ExecutionException "division by zero")
        {| conn_ := c; pgresult_ := Some failing;
           status_ := PGRES_FATAL_ERROR; num_ := 0 |}
    /\ pending c = [] /\ busy c = true.
Proof.
  intros ok failing.
  destruct (clear_stops_at_first_failure default_build (fun r => Returns tt r)
              {| conn_ := serving [ok; failing]; pgresult_ := Some ok;
                 status_ := PGRES_COMMAND_OK; num_ := 0 |}
              [ok] [] failing eq_refl) as (H & _).
  - repeat constructor. discriminate.
  - apply H; reflexivity.
Defined.

(** C3 (counterexample). Two statements were sent, the result of the first
    is in hand and abandoned; the second failed.  [clear()] throws on the
    failure and stops there: the null pointer that ends the results is still
    to be fetched and the connection does not take a new request yet. *)
Lemma clear_leaves_request_in_flight :
  let ok := message PGRES_COMMAND_OK 0 "" in
  let failing := message PGRES_FATAL_ERROR 0 "division by zero" in
  let left :=
    {| pending := []; errorMessage := "division by zero"; busy := true |} in
  clear default_build (fun r => Returns tt r)
    {| conn_ := serving [failing]; pgresult_ := Some ok;
       status_ := PGRES_COMMAND_OK; num_ := 0 |}
  = Throws (ExecutionException "division by zero")
      {| conn_ := left; pgresult_ := Some failing;
         status_ := PGRES_FATAL_ERROR; num_ := 0 |}
  /\ busy left = true
  /\ PQgetResult left = (None, finish left).
Proof. repeat split. Qed.

(** A second [clear()], on the stream the first one left on the failing
    message, fetches the null pointer and frees the connection. *)
Example clear_again_frees_connection :
  let failing := message PGRES_FATAL_ERROR 0 "division by zero" in
  clear default_build (fun r => Returns tt r)
    {| conn_ := {| pending := []; errorMessage := "division by zero";
                   busy := true |};
       pgresult_ := Some failing; status_ := PGRES_FATAL_ERROR; num_ := 0 |}
  = Returns tt
      {| conn_ := {| pending := []; errorMessage := "division by zero";
                     busy := false |};
         pgresult_ := None; status_ := PGRES_EMPTY_QUERY; num_ := 0 |}.
Proof. reflexivity. Qed.

(** ** After the last row *)

Lemma tail_differs {A : Type} (x : A) (l : list A) : l <> x :: l.
Proof.
  intros H. apply (f_equal (@List.length A)) in H. simpl in H. lia.
Qed.

(** C7 (amended). Once the stream is exhausted, a further advance is not a
    no-op.  In a build without [NDEBUG], [next()] and the pre-increment of an
    iterator stop on the failed assertion [status_ == PGRES_SINGLE_TUPLE]
    before anything is fetched; with [NDEBUG] and nothing pending, they throw
    an execution error; in no build does [next()] return with the stream as
    it was.  The exhausted stream reports that there is no row through
    [end()], which equals [begin()]. *)
Theorem advance_after_exhaustion (cfg : config) (r : Result) :
  exhausted r ->
  (ndebug cfg = false ->
   next cfg r = Aborts "status_ == PGRES_SINGLE_TUPLE"
   /\ forall it, iterator_incr cfg it r = Aborts "status_ == PGRES_SINGLE_TUPLE")
  /\ (ndebug cfg = true -> pending (conn_ r) = [] ->
      next cfg r
      = Throws (ExecutionException (lastError (conn_ r)))
          (set_status PGRES_FATAL_ERROR (fetch r))
      /\ forall it,
           iterator_incr cfg it r
           = Throws (ExecutionException (lastError (conn_ r)))
               (set_status PGRES_FATAL_ERROR (fetch r)))
  /\ next cfg r <> Returns tt r
  /\ end_ r = begin r.
Proof.
  intros [Hs Ha].
  assert (Hdebug : ndebug cfg = false ->
                   next cfg r = Aborts "status_ == PGRES_SINGLE_TUPLE").
  { intros Hd. unfold next, check. now rewrite Ha, Hd, Hs. }
  assert (Hrelease : ndebug cfg = true -> pending (conn_ r) = [] ->
            next cfg r
            = Throws (ExecutionException (lastError (conn_ r)))
                (set_status PGRES_FATAL_ERROR (fetch r))).
  { intros Hd Hq. destruct r as [[queue err b] p s n]. simpl in *. subst queue s.
    unfold next, check, fetch, PQgetResult. simpl. rewrite Ha, Hd.
    reflexivity. }
  split; [|split; [|split]].
  - intros Hd. split; [now apply Hdebug|].
    intros it. unfold iterator_incr. now rewrite Hdebug.
  - intros Hd Hq. split; [now apply Hrelease|].
    intros it. unfold iterator_incr. now rewrite Hrelease.
  - destruct (ndebug cfg) eqn:Hd; [|rewrite Hdebug by reflexivity; discriminate].
    destruct (pending (conn_ r)) as [|m rest] eqn:Hq;
      [rewrite Hrelease by reflexivity; discriminate|].
    intros Hn.
    assert (Hrest : forall r', next cfg r = Returns tt r' ->
                               pending (conn_ r') = rest).
    { clear Hn. intros r'. destruct r as [[queue err b] p s n]. simpl in *.
      subst queue s. unfold next, check, fetch, PQgetResult, then_. simpl.
      rewrite Ha, Hd. simpl.
      destruct (resultStatus m); simpl; try discriminate;
        intros [= <-]; reflexivity. }
    apply Hrest in Hn. rewrite Hq in Hn. now apply (tail_differs m rest).
  - unfold end_. now rewrite Hs.
Qed.

Lemma advance_after_exhaustion_witness :
  let done := message PGRES_TUPLES_OK 0 "" in
  let r := {| conn_ := serving []; pgresult_ := Some done;
              status_ := PGRES_TUPLES_OK; num_ := 0 |} in
  first default_build (new_Result (serving [done]) 7) = Returns tt r
  /\ next default_build r = Aborts "status_ == PGRES_SINGLE_TUPLE".
Proof.
  intros done r. split; [reflexivity|].
  destruct (advance_after_exhaustion default_build r) as (H & _).
  - split; reflexivity.
  - apply H. reflexivity.
Defined.

(** C7 (counterexample). A query without rows: [first()] receives the
    zero-row message and the stream is exhausted.  Calling [next()] or
    incrementing an iterator then stops the program in the default build,
    and with [NDEBUG] it throws; neither reports that there is no row and
    returns. *)
Lemma next_after_exhaustion_fails :
  let done := message PGRES_TUPLES_OK 0 "" in
  let r := {| conn_ := serving []; pgresult_ := Some done;
              status_ := PGRES_TUPLES_OK; num_ := 0 |} in
  first default_build (new_Result (serving [done]) 7) = Returns tt r
  /\ next default_build r = Aborts "status_ == PGRES_SINGLE_TUPLE"
  /\ iterator_incr default_build at_end_ r = Aborts "status_ == PGRES_SINGLE_TUPLE"
  /\ next {| ndebug := true; big_endian_host := false |} r
     = Throws (ExecutionException "")
         {| conn_ := idle; pgresult_ := None; status_ := PGRES_FATAL_ERROR;
            num_ := 0 |}.
Proof. repeat split. Qed.

(** * Further properties *)

(** ** The readers on arbitrary buffers *)

Lemma read_int_spec (cfg : config) (n : nat) (buf : cursor) :
  read_int cfg n buf
  = if (List.length buf <? n)%nat then Undefined
    else Ok (to_signed (Z.of_nat n * 8) (le_combine (rev (firstn n buf))),
             skipn n buf).
Proof.
  destruct (Nat.ltb_spec (List.length buf) n) as [Hlt | Hge].
  - unfold read_int, load.
    now replace (List.length buf <? n)%nat with true
      by (symmetry; now apply Nat.ltb_lt).
  - rewrite <- (firstn_skipn n buf) at 1.
    now rewrite read_int_big_endian by (rewrite length_firstn; lia).
Qed.

Lemma read_int_outcome (cfg : config) (n : nat) (buf : cursor) :
  ((List.length buf < n)%nat /\ read_int cfg n buf = Undefined)
  \/ ((n <= List.length buf)%nat
      /\ exists v, read_int cfg n buf = Ok (v, skipn n buf)).
Proof.
  rewrite read_int_spec.
  destruct (Nat.ltb_spec (List.length buf) n); [left | right]; eauto.
Qed.

Ltac step_read_int cfg n buf :=
  let Hlen := fresh "Hlen" in
  let Hread := fresh "Hread" in
  let v := fresh "v" in
  destruct (read_int_outcome cfg n buf) as [[Hlen Hread] | [Hlen [v Hread]]];
  rewrite Hread; cbn [bind].

Ltac reader_cases :=
  first [ left; reflexivity
        | right; split; [lia | eexists; reflexivity] ].

(** A reader either has no defined result, or returns with the cursor
    [sizeof(T)] bytes further in a buffer that held as many. *)
Lemma read_outcome (cfg : config) (t : ctype) (buf : cursor) :
  read cfg t buf = Undefined
  \/ ((sizeof t <= List.length buf)%nat
      /\ exists v, read cfg t buf = Ok (v, skipn (sizeof t) buf)).
Proof.
  destruct t; cbn [read sizeof];
    unfold read_int16_t, read_int32_t, read_int64_t, read_float, read_double,
      read_date_t, read_timestamp_t, read_timestamptz_t, read_timetz_t,
      read_time_t, read_interval_t, read_int32_t, read_int64_t.
  - (* bool *)
    unfold read_bool, advance. destruct buf as [|b buf]; simpl.
    + reader_cases.
    + destruct (byte.unsigned b =? 0), (byte.unsigned b =? 1); reader_cases.
  - step_read_int cfg 2%nat buf; reader_cases.
  - step_read_int cfg 4%nat buf; reader_cases.
  - step_read_int cfg 8%nat buf; reader_cases.
  - step_read_int cfg 4%nat buf; reader_cases.
  - step_read_int cfg 8%nat buf; reader_cases.
  - step_read_int cfg 4%nat buf; reader_cases.
  - step_read_int cfg 8%nat buf; reader_cases.
  - step_read_int cfg 8%nat buf; reader_cases.
  - (* timetz: eight bytes then four *)
    step_read_int cfg 8%nat buf; [reader_cases|].
    pose proof (length_skipn 8 buf) as L8.
    step_read_int cfg 4%nat (skipn 8 buf); rewrite ?skipn_skipn; reader_cases.
  - step_read_int cfg 8%nat buf; reader_cases.
  - (* interval: eight bytes, four, four *)
    step_read_int cfg 8%nat buf; [reader_cases|].
    pose proof (length_skipn 8 buf) as L8.
    step_read_int cfg 4%nat (skipn 8 buf); [reader_cases|].
    pose proof (length_skipn 4 (skipn 8 buf)) as L4.
    step_read_int cfg 4%nat (skipn 4 (skipn 8 buf)); rewrite ?skipn_skipn;
      reader_cases.
Qed.

Lemma read_never_aborts (cfg : config) (t : ctype) (buf : cursor)
    (cerr expr : string) :
  read cfg t buf <> Abort cerr expr.
Proof.
  destruct (read_outcome cfg t buf) as [-> | [_ [v ->]]]; discriminate.
Qed.

Lemma read_ok_cursor (cfg : config) (t : ctype) (buf buf' : cursor) (v : cpp t) :
  read cfg t buf = Ok (v, buf') ->
  (sizeof t <= List.length buf)%nat /\ buf' = skipn (sizeof t) buf.
Proof.
  destruct (read_outcome cfg t buf) as [-> | [Hlen [w ->]]]; [discriminate|].
  intros [= _ <-]. auto.
Qed.

(** X1. A reader has a defined result only on a buffer that holds at least
    [sizeof(T)] bytes; when it returns, the cursor has moved by exactly
    [sizeof(T)] bytes; and a reader never stops on an assertion or throws.
    This holds for the six scalar and the six temporal types. *)
Theorem read_moves_cursor_by_sizeof (cfg : config) (t : ctype) (buf : cursor) :
  ((List.length buf < sizeof t)%nat -> read cfg t buf = Undefined)
  /\ (forall v buf', read cfg t buf = Ok (v, buf') ->
        (sizeof t <= List.length buf)%nat /\ buf' = skipn (sizeof t) buf)
  /\ (forall e, read cfg t buf <> Throw e)
  /\ (forall cerr expr, read cfg t buf <> Abort cerr expr).
Proof.
  split; [|split; [|split]].
  - intros Hshort.
    destruct (read_outcome cfg t buf) as [H | [Hlen _]]; [exact H | lia].
  - intros v buf'. apply read_ok_cursor.
  - intros e.
    destruct (read_outcome cfg t buf) as [-> | [_ [v ->]]]; discriminate.
  - intros cerr expr. apply read_never_aborts.
Qed.

(** X2. What a reader returns does not depend on the byte order of the host
    (nor on the assertions being compiled in): the same bytes decode to the
    same value on a little-endian and on a big-endian machine. *)
Theorem read_is_host_independent (cfg cfg' : config) (t : ctype) (buf : cursor) :
  read cfg t buf = read cfg' t buf.
Proof.
  assert (H : forall n b, read_int cfg n b = read_int cfg' n b)
    by (intros; now rewrite !read_int_spec).
  destruct t; cbn [read];
    unfold read_int16_t, read_int32_t, read_int64_t, read_float, read_double,
      read_date_t, read_timestamp_t, read_timestamptz_t, read_timetz_t,
      read_time_t, read_interval_t, read_int32_t, read_int64_t;
    rewrite ?H; try reflexivity.
  - destruct (read_int cfg' 8 buf) as [[v b]| | |]; cbn [bind]; try reflexivity.
    now rewrite H.
  - destruct (read_int cfg' 8 buf) as [[v b]| | |]; cbn [bind]; try reflexivity.
    rewrite H.
    destruct (read_int cfg' 4 b) as [[v' b']| | |]; cbn [bind]; try reflexivity.
    now rewrite H.
Qed.

(** ** The accessors on columns that hold a value *)

Lemma tuple_field_attached (p : option PGresult) (column : Z) (c : Column) :
  tuple_field p column = Some c -> attached p = true /\ field p column = Some c.
Proof.
  unfold tuple_field. destruct p as [res|]; [|discriminate].
  destruct (0 <? ntuples res); [auto | discriminate].
Qed.

Lemma field_none_tuple_field (p : option PGresult) (column : Z) :
  field p column = None -> tuple_field p column = None.
Proof.
  unfold tuple_field. destruct p as [res|]; [|reflexivity].
  intros ->. now destruct (0 <? ntuples res).
Qed.

Lemma assert_passes (cfg : config) (expr : string) :
  assert_ cfg true expr = Ok tt.
Proof. unfold assert_. now destruct (ndebug cfg). Qed.

(** X3. For a column that is not null, that the server reports with the tag
    of [T] (or in a build with [NDEBUG]) and whose buffer starts with the wire
    image of a value [v] of the scalar type [T], [Row::get<T>] returns
    exactly [v]. *)
Theorem get_returns_wire_value (cfg : config) (t : ctype) (r : Result)
    (column : Z) (c : Column) (v : cpp t) (rest : list byte) :
  scalar t = true -> value_of t v ->
  tuple_field (pgresult_ r) column = Some c ->
  isnull c = false ->
  value c = encode t v ++ rest ->
  (ftype c = oid_of t \/ ndebug cfg = true) ->
  Row_get cfg (G_read t) r column = Ok v.
Proof.
  intros Hs Hv Hf Hnn Hval Htag.
  destruct (tuple_field_attached _ _ _ Hf) as [Hatt Hfield].
  cbn [Row_get]. unfold read_checked.
  rewrite Hatt, assert_passes. cbn [bind].
  assert (Hoid : assert_oid cfg (PQftype (pgresult_ r) column) (oid_of t) = Ok tt).
  { unfold PQftype. rewrite Hfield.
    destruct Htag as [-> | Hd]; [apply assert_oid_same|].
    unfold assert_oid. now rewrite Hd. }
  rewrite Hoid. cbn [bind].
  unfold PQgetisnull, read_column, PQgetvalue. rewrite Hf, Hnn, Hval.
  now rewrite <- app_assoc, read_encode.
Qed.

Lemma get_returns_wire_value_witness :
  Row_get default_build (G_read T_int16_t)
          (positioned_on (one_column INT2OID false (encode_int16 (-300)))) 0
  = Ok (-300).
Proof.
  apply (get_returns_wire_value default_build T_int16_t
           (positioned_on (one_column INT2OID false (encode_int16 (-300)))) 0
           {| fname := "c"; ftype := INT2OID; isnull := false;
              value := encode_int16 (-300) |} (-300) []).
  - reflexivity.
  - simpl. unfold in_range. lia.
  - reflexivity.
  - reflexivity.
  - exact (eq_sym (app_nil_r (encode_int16 (-300)))).
  - left. reflexivity.
Defined.

(** X4. Asking for a column the result does not have.  In a build without
    [NDEBUG] every accessor that compares tags stops on the assertion of
    [assert_oid], without a line on the error stream, and [columnName] stops
    on its own assertion.  The accessors for [std::string] and [char],
    [asArray] and [isNull] do not notice: they answer as for a null column,
    with the empty string, the zero character, the empty vector and true. *)
Theorem missing_column (cfg : config) (r : Result) (column : Z) :
  attached (pgresult_ r) = true ->
  field (pgresult_ r) column = None ->
  (ndebug cfg = false ->
   (forall g, tag_checked g = true -> Row_get cfg g r column = Abort "" "false")
   /\ Row_columnName cfg r column = Abort "" "res")
  /\ Row_get cfg G_string r column = Ok []
  /\ Row_get cfg G_char r column = Ok Byte.x00
  /\ (forall a, Row_asArray cfg a r column = Ok [])
  /\ Row_isNull cfg r column = Ok true.
Proof.
  intros Hatt Hf.
  pose proof (field_none_tuple_field _ _ Hf) as Htf.
  assert (Hnull : PQgetisnull (pgresult_ r) column = true)
    by (unfold PQgetisnull; now rewrite Htf).
  assert (Htag : PQftype (pgresult_ r) column = 0)
    by (unfold PQftype; now rewrite Hf).
  split; [|split; [|split; [|split]]].
  - intros Hd. split.
    + intros g Hg.
      assert (Hoid : forall oid, 0 <> oid -> expected_name 0 = None ->
                assert_oid cfg (PQftype (pgresult_ r) column) oid
                = Abort "" "false").
      { intros oid Hne Hname. unfold assert_oid. rewrite Hd, Htag, Hname.
        now destruct (Z.eqb_spec 0 oid). }
      destruct g as [t| | |]; try discriminate Hg; cbn [Row_get].
      * unfold read_checked. rewrite Hatt, assert_passes. cbn [bind].
        rewrite Hoid; [reflexivity | destruct t; discriminate | reflexivity].
      * unfold Row_get_bytea. rewrite Hatt, assert_passes. cbn [bind].
        rewrite Hoid; [reflexivity | discriminate | reflexivity].
    + unfold Row_columnName, PQfname. rewrite Hatt, assert_passes, Hf.
      cbn [bind non_null]. unfold assert_. now rewrite Hd.
  - cbn [Row_get]. unfold Row_get_string.
    rewrite Hatt, assert_passes. cbn [bind]. now rewrite Hnull.
  - cbn [Row_get]. unfold Row_get_char.
    rewrite Hatt, assert_passes. cbn [bind]. now rewrite Hnull.
  - intros a. unfold Row_asArray, readArray. now rewrite Hnull.
  - unfold Row_isNull. rewrite Hatt, assert_passes. cbn [bind].
    now rewrite Hnull.
Qed.

Lemma missing_column_witness :
  Row_get default_build (G_read T_int32_t)
          (positioned_on (one_column INT4OID false (encode_int32 7))) 1
  = Abort "" "false"
  /\ Row_get default_build G_string
             (positioned_on (one_column INT4OID false (encode_int32 7))) 1
     = Ok [].
Proof.
  destruct (missing_column default_build
              (positioned_on (one_column INT4OID false (encode_int32 7))) 1
              eq_refl eq_refl) as (H & Hs & _).
  split; [|exact Hs].
  destruct (H eq_refl) as [Hg _]. now apply (Hg (G_read T_int32_t)).
Defined.

(** X5. The accessors without a tag of their own, on a column that holds a
    value: [get<std::string>] returns every byte of the value, zero bytes
    included, whatever the type of the column, and
    [get<std::vector<uint8_t>>] returns the same bytes when the column is a
    [bytea] (or the build has [NDEBUG]). *)
Theorem raw_accessors_return_whole_value (cfg : config) (r : Result)
    (column : Z) (c : Column) :
  tuple_field (pgresult_ r) column = Some c ->
  isnull c = false ->
  Row_get cfg G_string r column = Ok (value c)
  /\ (ftype c = BYTEAOID \/ ndebug cfg = true ->
      Row_get cfg G_bytea r column = Ok (value c)).
Proof.
  intros Hf Hnn.
  destruct (tuple_field_attached _ _ _ Hf) as [Hatt Hfield].
  split.
  - cbn [Row_get]. unfold Row_get_string.
    rewrite Hatt, assert_passes. cbn [bind].
    unfold PQgetisnull, PQgetlength, PQgetvalue. rewrite Hf, Hnn.
    now rewrite Nat2Z.id, firstn_app, firstn_all, Nat.sub_diag, app_nil_r.
  - intros Htag. cbn [Row_get]. unfold Row_get_bytea.
    rewrite Hatt, assert_passes. cbn [bind].
    assert (Hoid : assert_oid cfg (PQftype (pgresult_ r) column) BYTEAOID = Ok tt).
    { unfold PQftype. rewrite Hfield.
      destruct Htag as [-> | Hd]; [apply assert_oid_same|].
      unfold assert_oid. now rewrite Hd. }
    rewrite Hoid. cbn [bind].
    unfold PQgetlength, PQgetvalue. rewrite Hf, Hnn.
    now rewrite Nat2Z.id, firstn_app, firstn_all, Nat.sub_diag, app_nil_r.
Qed.

Lemma raw_accessors_return_whole_value_witness :
  Row_get default_build G_string
          (positioned_on (one_column TEXTOID false [Byte.x61; Byte.x00; Byte.x62])) 0
  = Ok [Byte.x61; Byte.x00; Byte.x62].
Proof.
  apply (raw_accessors_return_whole_value default_build
           (positioned_on (one_column TEXTOID false [Byte.x61; Byte.x00; Byte.x62]))
           0 {| fname := "c"; ftype := TEXTOID; isnull := false;
                value := [Byte.x61; Byte.x00; Byte.x62] |});
    reflexivity.
Defined.

(** X6. [get<char>] on a column that holds a value: a value of one byte is
    returned as it is, whatever the type of the column; a value of any other
    length stops the call on the length assertion in a build without
    [NDEBUG], and with [NDEBUG] yields the first byte, or the zero byte that
    ends an empty value. *)
Theorem get_char_wants_one_byte (cfg : config) (r : Result) (column : Z)
    (c : Column) :
  tuple_field (pgresult_ r) column = Some c ->
  isnull c = false ->
  (forall b, value c = [b] -> Row_get cfg G_char r column = Ok b)
  /\ (List.length (value c) <> 1%nat -> ndebug cfg = false ->
      Row_get cfg G_char r column
      = Abort "" "PQgetlength(result_, 0, column) == 1")
  /\ (ndebug cfg = true ->
      Row_get cfg G_char r column = Ok (hd Byte.x00 (value c))).
Proof.
  intros Hf Hnn.
  destruct (tuple_field_attached _ _ _ Hf) as [Hatt _].
  cbn [Row_get]. unfold Row_get_char.
  rewrite Hatt, assert_passes. cbn [bind].
  unfold PQgetisnull, PQgetlength, PQgetvalue. rewrite Hf, Hnn.
  split; [|split].
  - intros b Hb. rewrite Hb. simpl. now rewrite assert_passes.
  - intros Hlen Hd. unfold assert_. rewrite Hd.
    destruct (Z.eqb_spec (Z.of_nat (List.length (value c))) 1); [lia | reflexivity].
  - intros Hd. unfold assert_. rewrite Hd. cbn [bind].
    now destruct (value c).
Qed.

Lemma get_char_wants_one_byte_witness :
  Row_get default_build G_char
          (positioned_on (one_column CHAROID false [Byte.x61; Byte.x62])) 0
  = Abort "" "PQgetlength(result_, 0, column) == 1".
Proof.
  destruct (get_char_wants_one_byte default_build
              (positioned_on (one_column CHAROID false [Byte.x61; Byte.x62])) 0
              {| fname := "c"; ftype := CHAROID; isnull := false;
                 value := [Byte.x61; Byte.x62] |} eq_refl eq_refl)
    as (_ & H & _).
  apply H; [simpl; lia | reflexivity].
Defined.

(** ** The number of affected rows *)

Lemma digits_of_uint (d : Decimal.uint) (acc : nat) :
  digits (NilEmpty.string_of_uint d) (Z.of_nat acc)
  = Z.of_nat (Nat.of_uint_acc d acc).
Proof.
  revert acc.
  induction d; intros acc; cbn [NilEmpty.string_of_uint digits Nat.of_uint_acc];
    [reflexivity | ..];
    match goal with
    | |- context [digit ?c] =>
        let o := eval vm_compute in (digit c) in
        change (digit c) with o; cbv iota
    end;
    rewrite <- IHd; f_equal; rewrite Nat.tail_mul_spec; lia.
Qed.

Lemma strtoull_decimal (n : nat) :
  strtoull (decimal n)
  = if ULLONG_MAX <? Z.of_nat n then ULLONG_MAX else Z.of_nat n.
Proof.
  unfold decimal.
  assert (H : forall d,
             strtoull (NilEmpty.string_of_uint d)
             = if ULLONG_MAX <? Z.of_nat (Nat.of_uint d) then ULLONG_MAX
               else Z.of_nat (Nat.of_uint d)).
  { intros d. unfold Nat.of_uint. rewrite <- (digits_of_uint d 0).
    destruct d; reflexivity. }
  now rewrite H, DecimalNat.Unsigned.of_to.
Qed.

(** X7. [Result::count] returns the number the server printed in the command
    tag: for every count [n] below 2^64 whose decimal text libpq hands over,
    the result is [n]; a larger count comes back as [ULLONG_MAX]; a command
    tag without a count, for which libpq hands over the empty string, gives
    0.  The call needs a result: without one it stops in a build without
    [NDEBUG]. *)
Theorem count_reads_command_tag (PQcmdTuples : option PGresult -> string)
    (cfg : config) (r : Result) :
  (attached (pgresult_ r) = true \/ ndebug cfg = true ->
   (forall n, PQcmdTuples (pgresult_ r) = decimal n ->
      (Z.of_nat n < 2 ^ 64 -> Result_count PQcmdTuples cfg r = Ok (Z.of_nat n))
      /\ (2 ^ 64 <= Z.of_nat n ->
          Result_count PQcmdTuples cfg r = Ok ULLONG_MAX))
   /\ (PQcmdTuples (pgresult_ r) = EmptyString ->
       Result_count PQcmdTuples cfg r = Ok 0))
  /\ (attached (pgresult_ r) = false -> ndebug cfg = false ->
      Result_count PQcmdTuples cfg r = Abort "" "pgresult_").
Proof.
  split.
  - intros Hres.
    assert (Ha : assert_ cfg (attached (pgresult_ r)) "pgresult_" = Ok tt).
    { unfold assert_. destruct Hres as [-> | ->]; [|reflexivity].
      now destruct (ndebug cfg). }
    unfold Result_count. rewrite Ha. cbn [bind]. split.
    + intros n ->. rewrite strtoull_decimal. unfold ULLONG_MAX.
      split; intros Hn;
        destruct (Z.ltb_spec (2 ^ 64 - 1) (Z.of_nat n)); (reflexivity || lia).
    + intros ->. reflexivity.
  - intros Hnone Hd. unfold Result_count, assert_. now rewrite Hd, Hnone.
Qed.

Lemma count_reads_command_tag_witness :
  Result_count (fun _ => decimal 5) default_build
    (positioned_on (message PGRES_COMMAND_OK 0 ""))
  = Ok 5.
Proof.
  destruct (count_reads_command_tag (fun _ => decimal 5) default_build
              (positioned_on (message PGRES_COMMAND_OK 0 "")))
    as [H _].
  destruct (H (or_introl eq_refl)) as [Hn _].
  destruct (Hn 5%nat eq_refl) as [Hsmall _].
  apply Hsmall. simpl. lia.
Defined.

(** [strtoull] on texts that are not plain counts. *)
Example strtoull_edges :
  strtoull "  42 rows" = 42
  /\ strtoull "+7" = 7
  /\ strtoull "rows" = 0
  /\ strtoull "-1" = ULLONG_MAX
  /\ strtoull "18446744073709551616" = ULLONG_MAX.
Proof. repeat split. Qed.

(** ** Fetching rows *)

Lemma next_reached (cfg : config) (r : Result) :
  attached (pgresult_ r) = false \/ status_ r = PGRES_SINGLE_TUPLE
  \/ ndebug cfg = true ->
  (if attached (pgresult_ r)
   then check cfg (status_eqb (status_ r) PGRES_SINGLE_TUPLE)
              "status_ == PGRES_SINGLE_TUPLE" r
   else Returns tt r) = Returns tt r.
Proof.
  unfold check. intros [-> | [-> | ->]]; [reflexivity | |].
  - now destruct (attached _), (ndebug cfg).
  - now destruct (attached _).
Qed.

Lemma next_on_row (cfg : config) (r : Result) (m : PGresult)
    (rest : list PGresult) :
  attached (pgresult_ r) = false \/ status_ r = PGRES_SINGLE_TUPLE
  \/ ndebug cfg = true ->
  pending (conn_ r) = m :: rest -> is_row m ->
  next cfg r
  = Returns tt {| conn_ := {| pending := rest;
                              errorMessage := errorMessage (conn_ r);
                              busy := busy (conn_ r) |};
                  pgresult_ := Some m; status_ := PGRES_SINGLE_TUPLE;
                  num_ := wrap 32 (num_ r + 1) |}.
Proof.
  intros Hreach Hq [Hs Hn]. unfold next. rewrite (next_reached cfg r Hreach).
  cbn [then_]. unfold fetch, PQgetResult. rewrite Hq.
  unfold check, deliver. rewrite Hs.
  destruct (ndebug cfg); simpl; rewrite Hs; simpl; rewrite ?Hn; reflexivity.
Qed.

Lemma next_on_end_of_rows (cfg : config) (r : Result) (m : PGresult)
    (rest : list PGresult) :
  attached (pgresult_ r) = false \/ status_ r = PGRES_SINGLE_TUPLE
  \/ ndebug cfg = true ->
  pending (conn_ r) = m :: rest -> is_end_of_rows m ->
  next cfg r
  = Returns tt {| conn_ := {| pending := rest;
                              errorMessage := errorMessage (conn_ r);
                              busy := busy (conn_ r) |};
                  pgresult_ := Some m; status_ := PGRES_TUPLES_OK;
                  num_ := num_ r |}.
Proof.
  intros Hreach Hq [Hs Hn]. unfold next. rewrite (next_reached cfg r Hreach).
  cbn [then_]. unfold fetch, PQgetResult. rewrite Hq.
  unfold check, deliver. rewrite Hs.
  destruct (ndebug cfg); simpl; rewrite Hs; simpl; rewrite ?Hn; reflexivity.
Qed.

(** X8. Every call of [next()] that returns has taken exactly one message
    from the connection, the one the stream now holds; the status of the
    stream is the status of that message, which is not a failure; and the
    row counter, an [int], has been incremented if the message carries a
    tuple, which is one more unless the counter was at its largest value and
    wraps, and has not changed otherwise.  In a build without [NDEBUG] the
    message is a single tuple, the zero-row end of rows, or the completion
    of a command. *)
Theorem next_takes_one_message (cfg : config) (r r' : Result) :
  next cfg r = Returns tt r' ->
  exists m,
    pending (conn_ r) = m :: pending (conn_ r')
    /\ pgresult_ r' = Some m
    /\ status_ r' = resultStatus m
    /\ is_failure (resultStatus m) = false
    /\ errorMessage (conn_ r') = errorMessage (conn_ r)
    /\ num_ r' = (if status_eqb (resultStatus m) PGRES_SINGLE_TUPLE
                  then wrap 32 (num_ r + 1) else num_ r)
    /\ (resultStatus m = PGRES_SINGLE_TUPLE -> in_range 32 (num_ r + 1) ->
        num_ r' = num_ r + 1)
    /\ (ndebug cfg = false ->
        (resultStatus m = PGRES_SINGLE_TUPLE /\ ntuples m = 1)
        \/ (resultStatus m = PGRES_TUPLES_OK /\ ntuples m = 0)
        \/ resultStatus m = PGRES_COMMAND_OK).
Proof.
  intros Hnext.
  assert (H : exists m,
    pending (conn_ r) = m :: pending (conn_ r')
    /\ pgresult_ r' = Some m
    /\ status_ r' = resultStatus m
    /\ is_failure (resultStatus m) = false
    /\ errorMessage (conn_ r') = errorMessage (conn_ r)
    /\ num_ r' = (if status_eqb (resultStatus m) PGRES_SINGLE_TUPLE
                  then wrap 32 (num_ r + 1) else num_ r)
    /\ (ndebug cfg = false ->
        (resultStatus m = PGRES_SINGLE_TUPLE /\ ntuples m = 1)
        \/ (resultStatus m = PGRES_TUPLES_OK /\ ntuples m = 0)
        \/ resultStatus m = PGRES_COMMAND_OK)).
  { revert Hnext. unfold next, check, then_.
    destruct r as [[queue err b] p s n]. unfold fetch, PQgetResult. simpl.
    destruct (attached p), (ndebug cfg) eqn:Hd,
      (status_eqb s PGRES_SINGLE_TUPLE); simpl; try discriminate;
      destruct queue as [|m rest]; simpl; try discriminate;
      destruct (resultStatus m) eqn:Hm; simpl; try discriminate;
      try (destruct (Z.eqb_spec (ntuples m) 1); try discriminate);
      try (destruct (Z.eqb_spec (ntuples m) 0); try discriminate);
      intros [= <-]; exists m; simpl; rewrite ?Hm; simpl;
      repeat split; try discriminate; auto. }
  destruct H as (m & Hq & Hp & Hs & Hf & He & Hn & Hdbg).
  exists m. repeat split; try assumption.
  intros Hst Hfit. rewrite Hn, Hst. simpl.
  apply wrap_in_range; [lia | exact Hfit].
Qed.

Lemma next_takes_one_message_witness :
  let row := message PGRES_SINGLE_TUPLE 1 "" in
  let r := {| conn_ := serving [row; row]; pgresult_ := Some row;
              status_ := PGRES_SINGLE_TUPLE; num_ := 41 |} in
  exists r',
    next default_build r = Returns tt r'
    /\ pending (conn_ r') = [row] /\ pgresult_ r' = Some row /\ num_ r' = 42.
Proof.
  intros row r.
  exists {| conn_ := serving [row]; pgresult_ := Some row;
            status_ := PGRES_SINGLE_TUPLE; num_ := 42 |}.
  assert (Hnext : next default_build r
                  = Returns tt {| conn_ := serving [row]; pgresult_ := Some row;
                                  status_ := PGRES_SINGLE_TUPLE; num_ := 42 |})
    by reflexivity.
  destruct (next_takes_one_message default_build r _ Hnext)
    as (m & _ & Hp & _ & _ & _ & _ & Hone & _).
  injection Hp as <-.
  assert (Hfit : in_range 32 (num_ r + 1)) by (unfold in_range; simpl; lia).
  split; [exact Hnext|]. split; [reflexivity|]. split; [reflexivity|].
  exact (Hone eq_refl Hfit).
Defined.

Lemma range_loop_over_rows (cfg : config) (done : PGresult)
    (rest : list PGresult) (rows : list PGresult) :
  Forall is_row rows -> is_end_of_rows done ->
  forall (fuel : nat) (r : Result) (runs : nat),
    status_ r = PGRES_SINGLE_TUPLE ->
    in_range 32 (num_ r) ->
    pending (conn_ r) = rows ++ done :: rest ->
    (List.length rows < fuel)%nat ->
    range_loop cfg fuel at_begin_ at_end_ r runs
    = Some (Returns (runs + S (List.length rows))%nat
              {| conn_ := {| pending := rest;
                             errorMessage := errorMessage (conn_ r);
                             busy := busy (conn_ r) |};
                 pgresult_ := Some done; status_ := PGRES_TUPLES_OK;
                 num_ := wrap 32 (num_ r + Z.of_nat (List.length rows)) |}).
Proof.
  intros Hrows Hdone. induction Hrows as [|m rows Hm _ IH];
    intros fuel r runs Hs Hin Hq Hfuel;
    (destruct fuel as [|fuel]; [simpl in Hfuel; lia|]);
    cbn [range_loop iterator_eqb]; unfold iterator_incr.
  - rewrite (next_on_end_of_rows cfg r done rest) by auto.
    cbn [then_ status_ status_eqb negb]. unfold check. simpl.
    replace (if ndebug cfg then _ else _)
      with (@Returns unit tt
              {| conn_ := {| pending := rest;
                             errorMessage := errorMessage (conn_ r);
                             busy := busy (conn_ r) |};
                 pgresult_ := Some done; status_ := PGRES_TUPLES_OK;
                 num_ := num_ r |}) by (now destruct (ndebug cfg)).
    cbn [then_]. rewrite Z.add_0_r, (wrap_in_range 32 (num_ r)) by (lia || exact Hin).
    destruct fuel; cbn [range_loop iterator_eqb]; (do 2 f_equal; lia).
  - rewrite (next_on_row cfg r m (rows ++ done :: rest)) by auto.
    cbn [then_ status_ status_eqb negb].
    rewrite IH by (cbn; auto; try (apply wrap_range; lia); simpl in Hfuel; lia).
    cbn [num_ conn_ errorMessage busy List.length].
    rewrite wrap_add_l by lia.
    do 2 f_equal; [lia | f_equal; f_equal; lia].
Qed.

(** X9. A query whose answer is [n] tuple messages followed by the zero-row
    message: after [first()], a range-based loop over the result runs its
    body once for each of the [n] rows and stops; the stream then holds the
    zero-row message and what the server sent behind that message is still
    pending, untouched.  [num()] is then [n] as an [int]: [n] itself for
    fewer than 2^31 rows, [n] wrapped around beyond. *)
Theorem iteration_visits_every_row (cfg : config) (r : Result)
    (rows : list PGresult) (done : PGresult) (rest : list PGresult)
    (fuel : nat) :
  attached (pgresult_ r) = false ->
  pending (conn_ r) = rows ++ done :: rest ->
  Forall is_row rows -> is_end_of_rows done ->
  (List.length rows <= fuel)%nat ->
  exists r1 r2,
    first cfg r = Returns tt r1
    /\ range_for cfg fuel r1 = Some (Returns (List.length rows) r2)
    /\ Row_num r2 = wrap 32 (Z.of_nat (List.length rows))
    /\ (Z.of_nat (List.length rows) < 2 ^ 31 ->
        Row_num r2 = Z.of_nat (List.length rows))
    /\ status_ r2 = PGRES_TUPLES_OK
    /\ pgresult_ r2 = Some done
    /\ pending (conn_ r2) = rest.
Proof.
  intros Hnone Hq Hrows Hdone Hfuel.
  assert (Hfirst : first cfg r = next cfg (set_num 0 r)).
  { unfold first, check. rewrite Hnone. simpl. now destruct (ndebug cfg). }
  assert (Hsmall : forall n : nat, Z.of_nat n < 2 ^ 31 ->
                                   wrap 32 (Z.of_nat n) = Z.of_nat n).
  { intros n Hn. apply wrap_in_range; [lia|]. unfold in_range. simpl in *. lia. }
  destruct Hrows as [|m rows Hm Hrows].
  - eexists; eexists. rewrite Hfirst.
    rewrite (next_on_end_of_rows cfg (set_num 0 r) done rest) by auto.
    split; [reflexivity|]. split.
    + unfold range_for, begin, end_. simpl. destruct fuel; reflexivity.
    + repeat split.
  - eexists; eexists. rewrite Hfirst.
    rewrite (next_on_row cfg (set_num 0 r) m (rows ++ done :: rest)) by auto.
    split; [reflexivity|]. split.
    + unfold range_for, begin, end_. cbn [status_ status_eqb].
      rewrite (range_loop_over_rows cfg done rest rows Hrows Hdone);
        [ | reflexivity | apply wrap_range; lia | reflexivity
          | simpl in Hfuel; lia ].
      cbn [List.length Nat.add]. reflexivity.
    + unfold Row_num, set_num.
      cbn [num_ List.length status_ pgresult_ conn_ pending].
      rewrite wrap_idempotent, wrap_add_l by lia.
      replace (0 + 1 + Z.of_nat (List.length rows))
        with (Z.of_nat (S (List.length rows))) by lia.
      repeat split. apply Hsmall.
Qed.

Lemma iteration_visits_every_row_witness :
  let row := message PGRES_SINGLE_TUPLE 1 "" in
  let done := message PGRES_TUPLES_OK 0 "" in
  exists r1 r2,
    first default_build (new_Result (serving [row; row; done]) 7) = Returns tt r1
    /\ range_for default_build 2 r1 = Some (Returns 2%nat r2)
    /\ Row_num r2 = wrap 32 2
    /\ (2 < 2 ^ 31 -> Row_num r2 = 2)
    /\ status_ r2 = PGRES_TUPLES_OK
    /\ pgresult_ r2 = Some done
    /\ pending (conn_ r2) = [].
Proof.
  intros row done.
  apply (iteration_visits_every_row default_build
           (new_Result (serving [row; row; done]) 7) [row; row] done [] 2).
  - reflexivity.
  - reflexivity.
  - repeat constructor.
  - split; reflexivity.
  - simpl. lia.
Defined.

(** ** Clearing *)

Lemma clear_loop_returns_empty_query (queue : list PGresult) :
  forall r r', clear_loop queue r = Returns tt r' ->
               status_ r' = PGRES_EMPTY_QUERY.
Proof.
  induction queue as [|m queue IH]; intros r r'; cbn [clear_loop].
  - now intros [= <-].
  - simpl. destruct (resultStatus m) eqn:Hm; try discriminate;
      try apply IH.
    intros [= <-]. reflexivity.
Qed.

(** X10. From a stream that is not on a tuple (status empty-query,
    command-ok, tuples-ok, or a failure), a [clear()] that returns leaves the
    status empty-query, and clearing again changes nothing.  From tuples-ok
    or a failure, in a build without [NDEBUG], it returns only after fetching
    the null pointer that ends the results: no result is attached, nothing is
    pending and the connection is free, so that [first()] may be called. *)
Theorem clear_settles (cfg : config) (cancel : Result -> run unit)
    (r r' : Result) :
  settled (status_ r) = true ->
  clear cfg cancel r = Returns tt r' ->
  status_ r' = PGRES_EMPTY_QUERY
  /\ clear cfg cancel r' = Returns tt r'
  /\ (ndebug cfg = false ->
      status_ r = PGRES_TUPLES_OK \/ is_failure (status_ r) = true ->
      pgresult_ r' = None /\ pending (conn_ r') = [] /\ busy (conn_ r') = false
      /\ num_ r' = num_ r).
Proof.
  intros Hs Hc.
  assert (Hstatus : status_ r' = PGRES_EMPTY_QUERY).
  { unfold clear in Hc. destruct (status_ r) eqn:Es; try discriminate Hs.
    - now injection Hc as <-.
    - now apply clear_loop_returns_empty_query in Hc.
    - unfold then_, check in Hc.
      destruct (ndebug cfg), (negb (attached (pgresult_ (fetch r))));
        try discriminate Hc; now injection Hc as <-.
    - unfold then_, check in Hc.
      destruct (ndebug cfg), (negb (attached (pgresult_ (fetch r))));
        try discriminate Hc; now injection Hc as <-.
    - unfold then_, check in Hc.
      destruct (ndebug cfg), (negb (attached (pgresult_ (fetch r))));
        try discriminate Hc; now injection Hc as <-. }
  split; [exact Hstatus | split].
  - unfold clear. now rewrite Hstatus.
  - intros Hd Hcase. unfold clear in Hc.
    assert (Hgo : then_ (check cfg (negb (attached (pgresult_ (fetch r))))
                           "pgresult_ == nullptr" (fetch r))
                    (fun _ r0 => Returns tt (set_status PGRES_EMPTY_QUERY r0))
                  = Returns tt r').
    { destruct Hcase as [Es | Hf].
      - now rewrite Es in Hc.
      - destruct (status_ r); try discriminate Hf; exact Hc. }
    clear Hc. unfold check, then_ in Hgo. rewrite Hd in Hgo.
    destruct r as [[queue err b] p s n]. unfold fetch, PQgetResult in Hgo.
    simpl in Hgo. destruct queue as [|m rest]; simpl in Hgo;
      [|discriminate Hgo].
    injection Hgo as <-. simpl. auto.
Qed.

Lemma clear_settles_witness :
  let done := message PGRES_TUPLES_OK 0 "" in
  let r := {| conn_ := serving []; pgresult_ := Some done;
              status_ := PGRES_TUPLES_OK; num_ := 3 |} in
  let r' := {| conn_ := idle; pgresult_ := None;
               status_ := PGRES_EMPTY_QUERY; num_ := 3 |} in
  clear default_build (fun r => Returns tt r) r = Returns tt r'
  /\ clear default_build (fun r => Returns tt r) r' = Returns tt r'
  /\ busy (conn_ r') = false.
Proof.
  intros done r r'.
  assert (Hc : clear default_build (fun r => Returns tt r) r = Returns tt r')
    by reflexivity.
  destruct (clear_settles default_build (fun r => Returns tt r) r r' eq_refl Hc)
    as (_ & Hagain & Hfree).
  split; [exact Hc | split; [exact Hagain|]].
  destruct (Hfree eq_refl (or_introl eq_refl)) as (_ & _ & Hb & _). exact Hb.
Defined.

(** X11. Abandoning a stream on a tuple.  If that tuple was the last, so
    that the zero-row message and then the end of the results follow,
    [clear()] drains both and returns with the connection free;
    [Connection::cancel] is not called, whatever it would do.  If another
    tuple follows, the outcome is that of [Connection::cancel], called on the
    stream that has fetched that tuple, followed by the check that no result
    is attached any more.  If the zero-row message is followed by the result
    of a further statement, the call stops on that check in a build without
    [NDEBUG]. *)
Theorem clear_abandoned_stream (cfg : config) (cancel : Result -> run unit)
    (r : Result) (m : PGresult) (rest : list PGresult) :
  status_ r = PGRES_SINGLE_TUPLE ->
  pending (conn_ r) = m :: rest ->
  (is_end_of_rows m -> rest = [] ->
   clear cfg cancel r
   = Returns tt {| conn_ := {| pending := [];
                               errorMessage := errorMessage (conn_ r);
                               busy := false |};
                   pgresult_ := None; status_ := PGRES_EMPTY_QUERY;
                   num_ := num_ r |})
  /\ (is_row m ->
      clear cfg cancel r
      = then_ (cancel {| conn_ := {| pending := rest;
                                     errorMessage := errorMessage (conn_ r);
                                     busy := busy (conn_ r) |};
                         pgresult_ := Some m; status_ := PGRES_SINGLE_TUPLE;
                         num_ := wrap 32 (num_ r + 1) |})
              (fun _ r0 => check cfg (negb (attached (pgresult_ r0)))
                                 "pgresult_ == nullptr" r0))
  /\ (is_end_of_rows m -> rest <> [] -> ndebug cfg = false ->
      clear cfg cancel r = Aborts "pgresult_ == nullptr").
Proof.
  intros Hs Hq. unfold clear. rewrite Hs. split; [|split].
  - intros Hm ->.
    rewrite (next_on_end_of_rows cfg r m []) by auto.
    cbn [then_ status_]. unfold fetch, PQgetResult, check. simpl.
    now destruct (ndebug cfg).
  - intros Hm. rewrite (next_on_row cfg r m rest) by auto. reflexivity.
  - intros Hm Hrest Hd.
    rewrite (next_on_end_of_rows cfg r m rest) by auto.
    cbn [then_ status_]. unfold fetch, PQgetResult, check. simpl.
    destruct rest as [|m' rest']; [contradiction|]. simpl. now rewrite Hd.
Qed.

Lemma clear_abandoned_stream_witness :
  let row := message PGRES_SINGLE_TUPLE 1 "" in
  let done := message PGRES_TUPLES_OK 0 "" in
  clear default_build (fun _ => Aborts "cancel")
    {| conn_ := serving [done]; pgresult_ := Some row;
       status_ := PGRES_SINGLE_TUPLE; num_ := 1 |}
  = Returns tt {| conn_ := idle; pgresult_ := None;
                  status_ := PGRES_EMPTY_QUERY; num_ := 1 |}.
Proof.
  intros row done.
  destruct (clear_abandoned_stream default_build (fun _ => Aborts "cancel")
              {| conn_ := serving [done]; pgresult_ := Some row;
                 status_ := PGRES_SINGLE_TUPLE; num_ := 1 |} done []
              eq_refl eq_refl) as (H & _).
  apply H; [split; reflexivity | reflexivity].
Defined.

(** ** Arrays on arbitrary buffers *)

Lemma read_elements_length (cfg : config) (t : ctype) (defVal : cpp t) (n : nat) :
  forall buf l buf',
    read_elements cfg t defVal n buf = Ok (l, buf') ->
    List.length l = n
    /\ (4 * n + List.length buf' <= List.length buf)%nat.
Proof.
  induction n as [|n IH]; intros buf l buf'; cbn [read_elements].
  - intros [= <- <-]. simpl. lia.
  - unfold read_int32_t.
    step_read_int cfg 4%nat buf; [discriminate|].
    pose proof (length_skipn 4 buf) as L4.
    destruct (v =? -1); cbn [bind].
    + destruct (read_elements cfg t defVal n (skipn 4 buf)) as [[vs b3]| | |] eqn:E;
        cbn [bind]; try discriminate.
      intros [= <- <-]. destruct (IH _ _ _ E). simpl. lia.
    + destruct (read cfg t (skipn 4 buf)) as [[x b2]| | |] eqn:Ex;
        cbn [bind]; try discriminate.
      destruct (read_ok_cursor cfg t _ _ _ Ex) as [Hsz ->].
      pose proof (length_skipn (sizeof t) (skipn 4 buf)) as Lt.
      destruct (read_elements cfg t defVal n _) as [[vs b3]| | |] eqn:E;
        cbn [bind]; try discriminate.
      intros [= <- <-]. destruct (IH _ _ _ E). simpl. lia.
Qed.

(** X12. Whatever bytes the column holds: when [readArray] returns a vector
    for a column that is not null, the fourth word of the buffer declares a
    size that is not negative, the vector has exactly that many elements, and
    the value holds at least nineteen bytes of header and a four-byte length
    for each element; the twentieth byte of the header may be the zero byte
    with which libpq ends the value. *)
Theorem readArray_returns_declared_size (cfg : config) (t : ctype)
    (pgresult : option PGresult) (oid column : Z) (defVal : cpp t)
    (c : Column) (array : list (cpp t)) :
  tuple_field pgresult column = Some c ->
  isnull c = false ->
  readArray cfg t pgresult oid column defVal = Ok array ->
  exists size,
    read_int32_t cfg (skipn 12 (value c ++ [Byte.x00]))
    = Ok (size, skipn 16 (value c ++ [Byte.x00]))
    /\ 0 <= size
    /\ List.length array = Z.to_nat size
    /\ (19 + 4 * Z.to_nat size <= List.length (value c))%nat.
Proof.
  intros Hf Hnn. unfold readArray, PQgetisnull, PQgetvalue. rewrite Hf, Hnn.
  assert (Hlen : List.length (value c ++ [Byte.x00])
                 = S (List.length (value c)))
    by (rewrite length_app; simpl; lia).
  revert Hlen. generalize (value c ++ [Byte.x00]) as buf. intros buf Hlen.
  unfold read_int32_t.
  step_read_int cfg 4%nat buf; [discriminate|].
  pose proof (length_skipn 4 buf) as L1.
  step_read_int cfg 4%nat (skipn 4 buf); [discriminate|].
  pose proof (length_skipn 4 (skipn 4 buf)) as L2.
  step_read_int cfg 4%nat (skipn 4 (skipn 4 buf)); [discriminate|].
  pose proof (length_skipn 4 (skipn 4 (skipn 4 buf))) as L3.
  destruct (assert_oid cfg v1 oid) as [[]| | |]; cbn [bind]; try discriminate.
  destruct (assert_ cfg (v =? 1) "ndim == 1") as [[]| | |]; cbn [bind];
    try discriminate.
  rewrite !skipn_skipn in *. cbn [Nat.add] in *.
  step_read_int cfg 4%nat (skipn 12 buf); [discriminate|].
  pose proof (length_skipn 4 (skipn 12 buf)) as L4.
  step_read_int cfg 4%nat (skipn 4 (skipn 12 buf)); [discriminate|].
  pose proof (length_skipn 4 (skipn 4 (skipn 12 buf))) as L5.
  destruct (Z.ltb_spec v2 0); [discriminate|].
  destruct (read_elements cfg t defVal (Z.to_nat v2) _) as [[l b]| | |] eqn:E;
    cbn [bind]; try discriminate.
  intros [= <-]. destruct (read_elements_length _ _ _ _ _ _ _ E) as [Hl Hb].
  rewrite !skipn_skipn in *. cbn [Nat.add] in *.
  exists v2. repeat split; try assumption; lia.
Qed.

Lemma readArray_returns_declared_size_witness :
  let image := encode_array T_int32_t 1 0 INT4OID 1 [(4, 10); (-1, 0)] in
  exists size,
    read_int32_t default_build (skipn 12 (image ++ [Byte.x00]))
    = Ok (size, skipn 16 (image ++ [Byte.x00]))
    /\ 0 <= size
    /\ List.length [10; 0] = Z.to_nat size
    /\ (19 + 4 * Z.to_nat size <= List.length image)%nat.
Proof.
  intros image.
  apply (readArray_returns_declared_size default_build T_int32_t
           (Some (one_column 1007 false image)) INT4OID 0 0
           {| fname := "c"; ftype := 1007; isnull := false; value := image |}
           [10; 0]); reflexivity.
Defined.

(** The bound is met: a value of nineteen bytes, whose header lacks the last
    byte of the lower bound, is read as the empty array it declares. *)
Example readArray_nineteen_bytes :
  List.length (firstn 19 (encode_header 1 0 INT4OID 0 0)) = 19%nat
  /\ readArray default_build T_int32_t
       (Some (one_column 1007 false (firstn 19 (encode_header 1 0 INT4OID 0 0))))
       INT4OID 0 0
     = Ok [].
Proof. split; vm_compute; reflexivity. Qed.

(** X13. A one-dimensional array whose header declares a negative size is
    not read as an empty array: reserving room for that many elements throws
    [std::length_error], in every build, and no element is decoded. *)
Theorem readArray_negative_size (cfg : config) (t : ctype)
    (pgresult : option PGresult) (oid column : Z) (defVal : cpp t)
    (ign size index : Z) (rest : list byte) :
  in_range 32 ign -> in_range 32 oid -> in_range 32 size -> in_range 32 index ->
  size < 0 ->
  PQgetisnull pgresult column = false ->
  PQgetvalue pgresult column
  = Some (encode_header 1 ign oid size index ++ rest) ->
  readArray cfg t pgresult oid column defVal = Throw length_error.
Proof.
  intros Hi Ho Hs Hx Hneg Hnn Hval.
  unfold encode_header in Hval. rewrite <- !app_assoc in Hval.
  rewrite (read_array_header cfg t pgresult oid column defVal 1 ign oid _
             in_range_32_one Hi Ho Hnn Hval).
  rewrite assert_oid_same. cbn [bind].
  change (1 =? 1) with true. rewrite assert_passes. cbn [bind].
  rewrite read_int32_t_encode by assumption. cbn [bind].
  rewrite read_int32_t_encode by assumption. cbn [bind].
  now destruct (Z.ltb_spec size 0); [|lia].
Qed.

Lemma readArray_negative_size_witness :
  readArray default_build T_int32_t
    (Some (one_column 1007 false (encode_header 1 0 INT4OID (-2) 1 ++ [])))
    INT4OID 0 0
  = Throw length_error.
Proof.
  assert (R : forall v, -100 <= v <= 100 -> in_range 32 v)
    by (intros v Hv; unfold in_range; simpl; lia).
  apply (readArray_negative_size default_build T_int32_t
           (Some (one_column 1007 false (encode_header 1 0 INT4OID (-2) 1 ++ [])))
           INT4OID 0 0 0 (-2) 1 [Byte.x00]); try reflexivity.
  - apply R; lia.
  - apply R; unfold INT4OID; lia.
  - apply R; lia.
  - apply R; lia.
Defined.

(** ** A build with [NDEBUG] *)

(** With the checks compiled out, [get<int32_t>] on an [int8] column that
    holds 1 returns the upper half of the eight bytes, which is 0. *)
Example ndebug_reads_half_of_int8 :
  Row_get {| ndebug := true; big_endian_host := false |} (G_read T_int32_t)
    (positioned_on (one_column INT8OID false (encode_int64 1))) 0
  = Ok 0.
Proof. vm_compute. reflexivity. Qed.
